(** * jira-auto-trial: watchers, race groups and their error results

    A shallow embedding of the orchestration code of the repository
    (jira.go, atlassian.go, main.go, credentials, config) together with the
    parts of Go's [errors], [context], [errgroup] and [sync] packages that
    the code relies on.

    Go's [error] interface value is modelled as [option error]: [None] is
    the nil error, [Some e] a non-nil one. *)

From stdpp Require Import gmap strings list.

Local Open Scope string_scope.

(** ** Package errors *)

Module errors.

#[local] Set Warnings "-register-all".

(** Error values.  [errorVar] is a package-level error variable (created
    once by [errors.New] when its package is initialised, and compared by
    identity: here by its qualified name); [errorString] is an error made
    on the fly by [errors.New] or by [fmt.Errorf] without a wrapping verb;
    [wrapError] is what [fmt.Errorf] returns when the format has one or
    more wrapping verbs; [joinError] is what [errors.Join] returns. *)
Inductive error : Type :=
| errorVar (name msg : string)
| errorString (msg : string)
| wrapError (msg : string) (errs : list error)
| joinError (errs : list error).

(** The method [Error()]. *)
Fixpoint Error (e : error) : string :=
  match e with
  | errorVar _ msg => msg
  | errorString msg => msg
  | wrapError msg _ => msg
  | joinError errs =>
      (fix lines (l : list error) : string :=
         match l with
         | [] => ""
         | x :: l' =>
             match l' with
             | [] => Error x
             | _ :: _ => Error x +:+ String (Ascii.ascii_of_nat 10) (lines l')
             end
         end) errs
  end.

(** Comparison of two error values with [==]. *)
Fixpoint error_eqb (a b : error) {struct a} : bool :=
  let fix all_eqb (l1 l2 : list error) {struct l1} : bool :=
    match l1, l2 with
    | [], [] => true
    | x :: l1', y :: l2' => error_eqb x y && all_eqb l1' l2'
    | _, _ => false
    end in
  match a, b with
  | errorVar n1 m1, errorVar n2 m2 => String.eqb n1 n2 && String.eqb m1 m2
  | errorString m1, errorString m2 => String.eqb m1 m2
  | wrapError m1 l1, wrapError m2 l2 => String.eqb m1 m2 && all_eqb l1 l2
  | joinError l1, joinError l2 => all_eqb l1 l2
  | _, _ => false
  end.

(** [errors.Is]: [err] is [target], or one of the errors reached from
    [err] by unwrapping is. *)
Fixpoint Is (err target : error) {struct err} : bool :=
  error_eqb err target ||
  match err with
  | wrapError _ errs => existsb (fun e => Is e target) errs
  | joinError errs => existsb (fun e => Is e target) errs
  | _ => false
  end.

(** [errors.Join] on the non-nil errors it is given: nil when there is
    none. *)
Definition Join (errs : list error) : option error :=
  match errs with
  | [] => None
  | _ :: _ => Some (joinError errs)
  end.

(** [fmt.Errorf(prefix + "%w", err)]. *)
Definition Errorf_w (prefix : string) (err : error) : error :=
  wrapError (prefix +:+ Error err) [err].

(** [fmt.Errorf(prefix + "%s", s)]. *)
Definition Errorf_s (prefix s : string) : error :=
  errorString (prefix +:+ s).

End errors.

Export errors (error, errorVar, errorString, wrapError, joinError).

(** [strings.Contains]. *)
Fixpoint strings_Contains (s substr : string) : bool :=
  String.prefix substr s ||
  match s with
  | EmptyString => false
  | String _ s' => strings_Contains s' substr
  end.

(** ** Package context *)

Module context.

Definition Canceled : error :=
  errorVar "context.Canceled" "context canceled".
Definition DeadlineExceeded : error :=
  errorVar "context.DeadlineExceeded" "context deadline exceeded".

(** A context is the background context or a cancellable context derived
    from a parent; [id] stands for the identity of the [cancelCtx]. *)
Inductive Context : Type :=
| Background
| cancelCtx (id : nat) (parent : Context).

(** What a cancelled context records. *)
Record canceled := { err : error; cause : error }.

(** The cancellation state of the cancellable contexts that have been
    cancelled themselves. *)
Abbreviation Store := (gmap nat canceled).

(** The state of a context: its own when it was cancelled first, or
    else the one it receives from its closest cancelled ancestor. *)
Fixpoint state (σ : Store) (ctx : Context) : option canceled :=
  match ctx with
  | Background => None
  | cancelCtx id parent =>
      match σ !! id with
      | Some c => Some c
      | None => state σ parent
      end
  end.

(** [ctx.Err()]. *)
Definition Err (σ : Store) (ctx : Context) : option error :=
  err <$> state σ ctx.

(** [context.Cause(ctx)]. *)
Definition Cause (σ : Store) (ctx : Context) : option error :=
  cause <$> state σ ctx.

(** [ctx.Done()] is closed. *)
Definition Done (σ : Store) (ctx : Context) : bool :=
  bool_decide (is_Some (state σ ctx)).

(** The internal [cancel(err, cause)] of a [cancelCtx]: nothing happens
    when the context is already cancelled. *)
Definition cancel (ctx : Context) (e c : error) (σ : Store) : Store :=
  match ctx with
  | Background => σ
  | cancelCtx id _ =>
      match state σ ctx with
      | Some _ => σ
      | None => <[id := {| err := e; cause := c |}]> σ
      end
  end.

(** The [CancelCauseFunc] returned by [context.WithCancelCause]: a nil
    cause is recorded as [Canceled]. *)
Definition CancelCauseFunc (ctx : Context) (c : option error) (σ : Store) : Store :=
  cancel ctx Canceled (default Canceled c) σ.

(** The [CancelFunc] returned by [context.WithCancel]. *)
Definition CancelFunc (ctx : Context) (σ : Store) : Store :=
  cancel ctx Canceled Canceled σ.

(** The deadline of a context passes. *)
Definition deadline (ctx : Context) (σ : Store) : Store :=
  cancel ctx DeadlineExceeded DeadlineExceeded σ.

End context.

Export context (Context, Background, cancelCtx).

(** ** Package config *)

Module config.

Record AccountPlain := { Username : string; Password : string }.

Record Account := { Plain : option AccountPlain }.

End config.

(** ** Package credentials *)

Module credentials.

Record Credentials := { Username : string; Password : string }.

Definition ResolveCredentials (ctx : Context) (account : config.Account)
  : option Credentials * option error :=
  match config.Plain account with
  | Some plain =>
      (Some {| Username := config.Username plain;
               Password := config.Password plain |}, None)
  | None => (None, Some (errorString "no credentials specified"))
  end.

End credentials.

(** ** jira.go: TimeParseAny *)

Section TimeParseAny.

(** [time.Time], its zero value and [time.Parse] belong to the Go
    library. *)
Context {Time : Type} (zeroTime : Time).
Context (time_Parse : string → string → Time + error).

(** The loop of [TimeParseAny], with the errors collected so far. *)
Fixpoint TimeParseAny_loop (errs : list error) (formats : list string)
    (value : string) : Time * option error :=
  match formats with
  | [] => (zeroTime, errors.Join errs)
  | format :: formats' =>
      match time_Parse format value with
      | inr err => TimeParseAny_loop (errs ++ [err]) formats' value
      | inl date => (date, None)
      end
  end.

Definition TimeParseAny (formats : list string) (value : string)
  : Time * option error :=
  TimeParseAny_loop [] formats value.

(** The parse errors of the formats that do not parse [value], in the
    order of the list. *)
Definition parse_errors (formats : list string) (value : string) : list error :=
  omap (fun format =>
          match time_Parse format value with
          | inr err => Some err
          | inl _ => None
          end) formats.

Definition fails (value format : string) : Prop :=
  ∃ err, time_Parse format value = inr err.

End TimeParseAny.

(** ** Package playwright: the interface of the page driver *)

Module playwright.

Definition ErrTimeout : error := errorVar "playwright.ErrTimeout" "timeout".

(** A page of the browser context, by its identity. *)
Definition Page := nat.

(** Locators are built from a page by chaining selectors. *)
Inductive Locator : Type :=
| page_Locator (page : Page) (selector : string)
| Locator_Locator (l : Locator) (selector : string)
| Locator_First (l : Locator).

#[export] Instance Locator_eq_dec : EqDecision Locator.
Proof. solve_decision. Defined.

Inductive WaitForSelectorState := Attached | Detached | Visible | Hidden.

(** Calls on the driver act on the browser, a [World], and may fail. *)
Definition M (World A : Type) : Type := World → World * (A + error).

Definition ret {World A} (a : A) : M World A := fun w => (w, inl a).

(** Sequencing, as Go code does it with [if err != nil { return err }]. *)
Definition bind {World A B} (m : M World A) (k : A → M World B) : M World B :=
  fun w =>
    match m w with
    | (w', inl a) => k a w'
    | (w', inr err) => (w', inr err)
    end.

(** The field-level actions of a locator that the Reactions use
    ([Check_] is [locator.Check], with its [Force] option); the timeout of
    an action is in milliseconds, [None] for the default. *)
Class Driver (World : Type) := {
  Fill : Locator → string → M World ();
  Click : Locator → option Z → M World ();
  Check_ : Locator → bool → M World ();
  WaitFor : Locator → WaitForSelectorState → M World ();
  InnerText : Locator → option Z → M World string;
  NewPage : M World Page;
}.

(** The table [locatorHandlers] of a page: the handlers registered with
    [AddLocatorHandler], each with the locator it was registered for.  A
    handler is known by the number of the goroutine that registered it. *)
Abbreviation Handlers := (list (Locator * nat)).

Definition AddLocatorHandler (l : Locator) (h : nat) (hs : Handlers) : Handlers :=
  hs ++ [(l, h)].

(** [page.RemoveLocatorHandler(locator)] removes every handler registered
    for that locator, and none when there is none. *)
Definition RemoveLocatorHandler (l : Locator) (hs : Handlers) : Handlers :=
  filter (fun lh => lh.1 ≠ l) hs.

Definition registered (l : Locator) (h : nat) (hs : Handlers) : bool :=
  bool_decide ((l, h) ∈ hs).

End playwright.

Export playwright (Page, Locator, page_Locator, Locator_Locator, Locator_First,
                   Driver, M).

Notation "m1 >> m2" := (playwright.bind m1 (fun _ => m2))
  (at level 100, right associativity, only parsing).

(** A double quote, for the selectors. *)
Definition dq : string := String (Ascii.ascii_of_nat 34) EmptyString.

(** ** jira.go: the Reaction of the login watcher *)

Section JiraLogin.

Context {World : Type} `{!Driver World}.

Record JiraLoginHandler := {
  CredentialsResolver : Context → M World (string * string);
  RememberMe : bool;
}.

Definition login_form_selector : string :=
  "//form[contains(@action, " +:+ dq +:+ "/login.jsp" +:+ dq +:+ ")]".

Definition login_error_selector : string :=
  "//form[@id=" +:+ dq +:+ "login-form" +:+ dq +:+
  "]//div[contains(concat(' ', @class, ' '), ' aui-message-error ')]".

(** Lines 57 to 82 of the callback: resolve the credentials, fill the
    form, submit it and wait for it to be hidden. *)
Definition JiraLoginHandler_submit (s : JiraLoginHandler) (ctx : Context)
    (locator : Locator) : M World () :=
  playwright.bind (CredentialsResolver s ctx) (fun '(username, password) =>
  playwright.Fill (Locator_Locator locator ("[name=" +:+ dq +:+ "os_password" +:+ dq +:+ "]")) password >>
  playwright.Fill (Locator_First (Locator_Locator locator ("[name=" +:+ dq +:+ "os_username" +:+ dq +:+ "]"))) username >>
  (if RememberMe s
   then playwright.Check_ (Locator_Locator locator ("[for=" +:+ dq +:+ "login-form-remember-me" +:+ dq +:+ "]")) true
   else playwright.ret ()) >>
  playwright.Click (Locator_Locator locator ("[name=" +:+ dq +:+ "login" +:+ dq +:+ "]")) None >>
  playwright.WaitFor locator playwright.Hidden).

(** Lines 84 to 94: read the text of the error banner, for at most one
    second. *)
Definition JiraLoginHandler_probe (page : Page) : M World () :=
  fun w =>
    match playwright.InnerText (page_Locator page login_error_selector) (Some 1000%Z) w with
    | (w', inr err) =>
        if errors.Is err playwright.ErrTimeout then (w', inl ()) else (w', inr err)
    | (w', inl loginErr) =>
        (w', inr (errors.Errorf_s "login error: " loginErr))
    end.

(** The callback that [JiraLoginHandler.Run] gives to [RunPageLocator]. *)
Definition JiraLoginHandler_cb (s : JiraLoginHandler) (page : Page)
    (ctx : Context) (locator : Locator) : M World () :=
  JiraLoginHandler_submit s ctx locator >> JiraLoginHandler_probe page.

(** What the callback returns to the handler: an [error]. *)
Definition returned_error {A} (r : World * (A + error)) : option error :=
  match r.2 with
  | inl _ => None
  | inr err => Some err
  end.

End JiraLogin.

(** The credentials resolver that main.go gives to the login handler.  Its
    last case is a nil dereference in Go; [ResolveCredentials] never answers
    so. *)
Definition instance_CredentialsResolver {World} (account : config.Account)
    (ctx : Context) : M World (string * string) :=
  fun w =>
    match credentials.ResolveCredentials ctx account with
    | (Some creds, None) =>
        (w, inl (credentials.Username creds, credentials.Password creds))
    | (_, Some err) => (w, inr err)
    | (None, None) => (w, inl ("", ""))
    end.

(** ** atlassian.go: the locators of the four watchers of the login group *)

Definition atlassian_username_selector : string :=
  "//form[@data-testid=" +:+ dq +:+ "form-login" +:+ dq +:+
  "]//input[@data-testid=" +:+ dq +:+ "username" +:+ dq +:+ "]".

Definition atlassian_password_selector : string :=
  "//form[@data-testid=" +:+ dq +:+ "form-login" +:+ dq +:+
  "]//input[@data-testid=" +:+ dq +:+ "password" +:+ dq +:+ "]".

Definition atlassian_otp_selector : string :=
  "//form//input[@id=" +:+ dq +:+ "two-step-verification-otp-code-input" +:+ dq +:+
  " and not(@disabled)]".

Definition atlassian_skip_selector : string :=
  "//*[text()=" +:+ dq +:+ "Continue without two-step verification" +:+ dq +:+ "]".

(** The locators that [AtlassianLoginHandler.Run] watches, one goroutine of
    the group each, in the order of the [g.Go] calls. *)
Definition AtlassianLoginHandler_locators (page : Page) : list Locator :=
  [ page_Locator page atlassian_username_selector;
    page_Locator page atlassian_password_selector;
    page_Locator page atlassian_otp_selector;
    page_Locator page atlassian_skip_selector ].

(** The locator that [JiraLoginHandler.Run] watches in its one goroutine. *)
Definition JiraLoginHandler_locators (page : Page) : list Locator :=
  [ page_Locator page login_form_selector ].

(** ** jira.go: RunPageLocator *)

(** What the goroutines share: the cancelled contexts and the handlers of
    the page. *)
Record Env := {
  ctxs : context.Store;
  locatorHandlers : playwright.Handlers;
}.

(** Where a call of [RunPageLocator] stands: before its registration,
    blocked on [<-ctx.Done()], or returned. *)
Inductive PC : Type :=
| Entering
| Blocked
| Returned (r : option error).

Section RunPageLocator.

(** The context given by the caller, the identity of the context that
    [context.WithCancelCause] makes from it (also the one of the handler),
    and the locator. *)
Context (ctx : Context) (id : nat) (locator : Locator).

(** [ctx, cancel := context.WithCancelCause(ctx)] *)
Definition scope : Context := cancelCtx id ctx.

(** Lines 32 to 44, with the answers of [locator.Page()] and
    [page.AddLocatorHandler].  Making [scope] changes nothing in the store:
    a context is in the store from its cancellation on.  No caller gives
    [options]. *)
Definition RunPageLocator_enter (page_err add_err : option error) (env : Env)
  : Env * PC :=
  match page_err with
  | Some err => (env, Returned (Some err))
  | None =>
      match add_err with
      | Some err => (env, Returned (Some err))
      | None =>
          ({| ctxs := ctxs env;
              locatorHandlers :=
                playwright.AddLocatorHandler locator id (locatorHandlers env) |},
           Blocked)
      end
  end.

(** Lines 38 to 42, the handler given to the page, once [cb] has
    returned [r]: [if err := cb(ctx, l); err != nil { cancel(err) }]. *)
Definition RunPageLocator_handler (r : option error) (env : Env) : Env :=
  match r with
  | Some err =>
      {| ctxs := context.CancelCauseFunc scope (Some err) (ctxs env);
         locatorHandlers := locatorHandlers env |}
  | None => env
  end.

(** Lines 46 to 49, once [ctx.Done()] is closed: the handler is removed
    and [ctx.Err()] returned.  [None] while the call is blocked. *)
Definition RunPageLocator_leave (env : Env) : option (Env * option error) :=
  if context.Done (ctxs env) scope
  then Some ({| ctxs := ctxs env;
                locatorHandlers :=
                  playwright.RemoveLocatorHandler locator (locatorHandlers env) |},
             context.Err (ctxs env) scope)
  else None.

End RunPageLocator.

(** ** One call of RunPageLocator and what happens around it *)

Module Watch.

(** What can happen: the call runs up to its wait; the page sees the
    locator and starts the handler; a started callback returns; the
    caller cancels its context, or the deadline of that context passes;
    the blocked call wakes up. *)
Inductive event : Type :=
| Enter (page_err add_err : option error)
| Trigger
| Complete (r : option error)
| Cancel
| Deadline
| Resume.

Record state := {
  env : Env;
  pc : PC;
  running : nat;
}.

(** The context of the caller, and the identity of the scope. *)
Definition caller_ctx : Context := cancelCtx 0 Background.
Definition scope_id : nat := 1.

Definition init : state :=
  {| env := {| ctxs := ∅; locatorHandlers := [] |}; pc := Entering; running := 0 |}.

(** An event that cannot happen in a state leaves it as it is. *)
Definition step (locator : Locator) (s : state) (ev : event) : state :=
  match ev with
  | Enter page_err add_err =>
      match pc s with
      | Entering =>
          let '(env', pc') :=
            RunPageLocator_enter scope_id locator page_err add_err (env s) in
          {| env := env'; pc := pc'; running := running s |}
      | _ => s
      end
  | Trigger =>
      if playwright.registered locator scope_id (locatorHandlers (env s))
      then {| env := env s; pc := pc s; running := S (running s) |}
      else s
  | Complete r =>
      match running s with
      | S n =>
          {| env := RunPageLocator_handler caller_ctx scope_id r (env s);
             pc := pc s; running := n |}
      | O => s
      end
  | Cancel =>
      {| env := {| ctxs := context.CancelFunc caller_ctx (ctxs (env s));
                   locatorHandlers := locatorHandlers (env s) |};
         pc := pc s; running := running s |}
  | Deadline =>
      {| env := {| ctxs := context.deadline caller_ctx (ctxs (env s));
                   locatorHandlers := locatorHandlers (env s) |};
         pc := pc s; running := running s |}
  | Resume =>
      match pc s with
      | Blocked =>
          match RunPageLocator_leave caller_ctx scope_id locator (env s) with
          | Some (env', r) => {| env := env'; pc := Returned r; running := running s |}
          | None => s
          end
      | _ => s
      end
  end.

Definition run (locator : Locator) (tr : list event) : state :=
  fold_left (step locator) tr init.

(** What [RunPageLocator] has returned, if it has. *)
Definition result (s : state) : option (option error) :=
  match pc s with
  | Returned r => Some r
  | _ => None
  end.

(** The handler of the call is in the table of the page. *)
Definition handler_registered (locator : Locator) (s : state) : bool :=
  playwright.registered locator scope_id (locatorHandlers (env s)).

(** Events in which no callback fails and the caller leaves its context
    alone. *)
Definition quiet (ev : event) : bool :=
  match ev with
  | Trigger | Complete None | Resume => true
  | _ => false
  end.

End Watch.

(** ** Package errgroup *)

Module errgroup.

(** What [g.Go] does when the function of a goroutine has returned [r]:
    [if err != nil { g.errOnce.Do(func() { g.err = err; g.cancel(g.err) }) }].
    The first and only run of [errOnce] is the one that sets [g.err]. *)
Definition done (gctx : Context) (r : option error)
    (g_err : option error) (σ : context.Store) : option error * context.Store :=
  match r, g_err with
  | Some err, None => (Some err, context.CancelCauseFunc gctx (Some err) σ)
  | _, _ => (g_err, σ)
  end.

(** The end of [g.Wait()], once every goroutine has returned:
    [g.cancel(g.err); return g.err]. *)
Definition Wait (gctx : Context) (g_err : option error) (σ : context.Store)
  : option error * context.Store :=
  (g_err, context.CancelCauseFunc gctx g_err σ).

End errgroup.

(** ** A group of watchers: JiraLoginHandler.Run and AtlassianLoginHandler.Run *)

Module Group.

(** The events of [Watch], for the goroutine [w] of the group where they
    belong to one, and the end of [g.Wait()]. *)
Inductive event : Type :=
| Enter (w : nat) (page_err add_err : option error)
| Trigger (w : nat)
| Complete (w : nat) (r : option error)
| Resume (w : nat)
| Cancel
| Deadline
| Wait.

Record goroutine := {
  pc : PC;
  running : nat;
}.

Record state := {
  env : Env;
  goroutines : list goroutine;
  g_err : option error;
  waited : option (option error);
}.

(** The context of the caller of [Run], the context that
    [errgroup.WithContext] makes from it, and the identity of the scope of
    the goroutine [w]. *)
Definition caller_ctx : Context := cancelCtx 0 Background.
Definition group_ctx : Context := cancelCtx 1 caller_ctx.
Definition scope_id (w : nat) : nat := 2 + w.

Definition init (locators : list Locator) : state :=
  {| env := {| ctxs := ∅; locatorHandlers := [] |};
     goroutines := (fun _ => {| pc := Entering; running := 0 |}) <$> locators;
     g_err := None;
     waited := None |}.

Definition returned (g : goroutine) : bool :=
  match pc g with
  | Returned _ => true
  | _ => false
  end.

(** The goroutine [w] returns [r] from [RunPageLocator], in the
    environment [env']. *)
Definition returns (w : nat) (n : nat) (r : option error) (env' : Env) (s : state)
  : state :=
  let '(g_err', σ') := errgroup.done group_ctx r (g_err s) (ctxs env') in
  {| env := {| ctxs := σ'; locatorHandlers := locatorHandlers env' |};
     goroutines := <[w := {| pc := Returned r; running := n |}]> (goroutines s);
     g_err := g_err';
     waited := waited s |}.

Definition step (locators : list Locator) (s : state) (ev : event) : state :=
  match ev with
  | Enter w page_err add_err =>
      match locators !! w, goroutines s !! w with
      | Some locator, Some {| pc := Entering; running := n |} =>
          match RunPageLocator_enter (scope_id w) locator page_err add_err (env s) with
          | (env', Returned r) => returns w n r env' s
          | (env', pc') =>
              {| env := env';
                 goroutines := <[w := {| pc := pc'; running := n |}]> (goroutines s);
                 g_err := g_err s; waited := waited s |}
          end
      | _, _ => s
      end
  | Trigger w =>
      match locators !! w, goroutines s !! w with
      | Some locator, Some g =>
          if playwright.registered locator (scope_id w) (locatorHandlers (env s))
          then {| env := env s;
                  goroutines := <[w := {| pc := pc g; running := S (running g) |}]> (goroutines s);
                  g_err := g_err s; waited := waited s |}
          else s
      | _, _ => s
      end
  | Complete w r =>
      match goroutines s !! w with
      | Some {| pc := p; running := S n |} =>
          {| env := RunPageLocator_handler group_ctx (scope_id w) r (env s);
             goroutines := <[w := {| pc := p; running := n |}]> (goroutines s);
             g_err := g_err s; waited := waited s |}
      | _ => s
      end
  | Resume w =>
      match locators !! w, goroutines s !! w with
      | Some locator, Some {| pc := Blocked; running := n |} =>
          match RunPageLocator_leave group_ctx (scope_id w) locator (env s) with
          | Some (env', r) => returns w n r env' s
          | None => s
          end
      | _, _ => s
      end
  | Cancel =>
      {| env := {| ctxs := context.CancelFunc caller_ctx (ctxs (env s));
                   locatorHandlers := locatorHandlers (env s) |};
         goroutines := goroutines s; g_err := g_err s; waited := waited s |}
  | Deadline =>
      {| env := {| ctxs := context.deadline caller_ctx (ctxs (env s));
                   locatorHandlers := locatorHandlers (env s) |};
         goroutines := goroutines s; g_err := g_err s; waited := waited s |}
  | Wait =>
      match waited s with
      | Some _ => s
      | None =>
          if forallb returned (goroutines s)
          then
            let '(r, σ') := errgroup.Wait group_ctx (g_err s) (ctxs (env s)) in
            {| env := {| ctxs := σ'; locatorHandlers := locatorHandlers (env s) |};
               goroutines := goroutines s; g_err := g_err s; waited := Some r |}
          else s
      end
  end.

Definition run (locators : list Locator) (tr : list event) : state :=
  fold_left (step locators) tr (init locators).

(** Events in which no registration fails, no callback fails and the
    caller leaves its context alone. *)
Definition quiet (ev : event) : bool :=
  match ev with
  | Enter _ None None | Trigger _ | Complete _ None | Resume _ | Wait => true
  | _ => false
  end.

End Group.

(** ** Package sync *)

Module sync.

(** The function that [sync.OnceValues(f)] returns, with its cell: the
    first call runs [f] and keeps what it returned, the later calls
    return what was kept. *)
Definition OnceValues {S T : Type} (f : S → S * T) (cell : option T) (s : S)
  : S * option T * T :=
  match cell with
  | Some r => (s, cell, r)
  | None => let '(s', r) := f s in (s', Some r, r)
  end.

End sync.

(** ** main.go: the Atlassian page of [run] *)

Section Main.

Context {World : Type} `{!Driver World}.

(** The goroutines that the initialiser starts in [rootGroup]. *)
Inductive task : Type :=
| ClosePageWhenDone (page : Page)
| RunAtlassianLogin (page : Page).

(** The browser, the goroutines of [rootGroup], and how many times
    [browserContext.NewPage()] was called for the Atlassian page. *)
Record Orchestrator := {
  world : World;
  rootGroup : list task;
  pages_created : nat;
}.

(** The function given to [sync.OnceValues], lines 193 to 232. *)
Definition newAtlassianPage (o : Orchestrator)
  : Orchestrator * (option Page * option error) :=
  match playwright.NewPage (world o) with
  | (w', inr err) =>
      ({| world := w'; rootGroup := rootGroup o;
          pages_created := S (pages_created o) |},
       (None, Some (errors.Errorf_w "could not create page: " err)))
  | (w', inl atlassianPage) =>
      ({| world := w';
          rootGroup := rootGroup o ++ [ClosePageWhenDone atlassianPage;
                                       RunAtlassianLogin atlassianPage];
          pages_created := S (pages_created o) |},
       (Some atlassianPage, None))
  end.

(** [resolveAtlassianPage()]. *)
Definition resolveAtlassianPage :=
  sync.OnceValues newAtlassianPage.

(** What happens while the instances are processed, as far as the
    Atlassian page goes: a call of [resolveAtlassianPage], or anything
    else that acts on the browser. *)
Inductive main_event : Type :=
| Resolve
| Act (f : World → World).

Record main_state := {
  orchestrator : Orchestrator;
  cell : option (option Page * option error);
  answers : list (option Page * option error);
}.

Definition main_init (w : World) : main_state :=
  {| orchestrator := {| world := w; rootGroup := []; pages_created := 0 |};
     cell := None;
     answers := [] |}.

Definition main_step (s : main_state) (ev : main_event) : main_state :=
  match ev with
  | Resolve =>
      let '(o', cell', r) := resolveAtlassianPage (cell s) (orchestrator s) in
      {| orchestrator := o'; cell := cell'; answers := answers s ++ [r] |}
  | Act f =>
      {| orchestrator :=
           {| world := f (world (orchestrator s));
              rootGroup := rootGroup (orchestrator s);
              pages_created := pages_created (orchestrator s) |};
         cell := cell s;
         answers := answers s |}
  end.

Definition main_run (w : World) (tr : list main_event) : main_state :=
  fold_left main_step tr (main_init w).

Definition is_login (t : task) : bool :=
  match t with
  | RunAtlassianLogin _ => true
  | ClosePageWhenDone _ => false
  end.

(** The login handlers registered in [rootGroup]. *)
Definition logins (s : main_state) : nat :=
  length (filter is_login (rootGroup (orchestrator s))).

End Main.

(** ** A scripted driver

    A browser in which every action succeeds and the error banner answers
    what the script says: the world is that answer. *)

Module Scripted.

Definition World : Type := string + error.

#[global] Instance driver : Driver World := {|
  playwright.Fill _ _ := playwright.ret ();
  playwright.Click _ _ := playwright.ret ();
  playwright.Check_ _ _ := playwright.ret ();
  playwright.WaitFor _ _ := playwright.ret ();
  playwright.InnerText _ _ := fun w => (w, w);
  playwright.NewPage := playwright.ret 1;
|}.

Definition account : config.Account :=
  {| config.Plain := Some {| config.Username := "admin"; config.Password := "secret" |} |}.

Definition handler : JiraLoginHandler (World := World) :=
  {| CredentialsResolver := instance_CredentialsResolver account;
     RememberMe := true |}.

Definition jiraPage : Page := 0.

Definition form : Locator := page_Locator jiraPage login_form_selector.

(** A [time.Parse] that knows one layout and one date. *)
Definition time_Parse (layout value : string) : Z + error :=
  if String.eqb layout "2 Jan 2006" && String.eqb value "1 Nov 2026"
  then inl 20261101%Z
  else inr (errorString ("parsing time " +:+ value +:+ " as " +:+ layout)).

End Scripted.

(** ** Invariants of the runs *)

(** The two cancellation errors, the only values that [ctx.Err()] takes. *)
Definition cancellation (e : error) : Prop :=
  e = context.Canceled ∨ e = context.DeadlineExceeded.

Definition cancellations (σ : context.Store) : Prop :=
  ∀ id c, σ !! id = Some c → cancellation (context.err c).

(** A call of [RunPageLocator]: before the registration the page has no
    handler; a return is an error, and leaves no handler of the call. *)
Definition Watch_inv (locator : Locator) (s : Watch.state) : Prop :=
  cancellations (ctxs (Watch.env s)) ∧
  match Watch.pc s with
  | Entering => locatorHandlers (Watch.env s) = []
  | Blocked => True
  | Returned r => is_Some r ∧ Watch.handler_registered locator s = false
  end.

(** A call that waits while no context is cancelled. *)
Definition Watch_waiting (locator : Locator) (s : Watch.state) : Prop :=
  ctxs (Watch.env s) = ∅
  ∧ Watch.pc s = Blocked
  ∧ Watch.handler_registered locator s = true.

(** A call whose registration went through returns a cancellation
    error. *)
Definition Watch_cancelled (s : Watch.state) : Prop :=
  cancellations (ctxs (Watch.env s)) ∧
  match Watch.pc s with
  | Returned r => ∃ e, r = Some e ∧ cancellation e
  | _ => True
  end.


(** Events of a call other than a registration that fails. *)
Definition Watch_registers (ev : Watch.event) : bool :=
  match ev with
  | Watch.Enter None None => true
  | Watch.Enter _ _ => false
  | _ => true
  end.

(** A group: every return of a goroutine is an error, [g.err] is set as
    soon as one goroutine has returned, and [g.Wait()] returns [g.err] when
    all the goroutines have. *)
Definition Group_inv (locators : list Locator) (s : Group.state) : Prop :=
  length (Group.goroutines s) = length locators
  ∧ Forall (fun g => ∀ r, Group.pc g = Returned r → is_Some r) (Group.goroutines s)
  ∧ (is_Some (Group.g_err s)
     ∨ Forall (fun g => Group.returned g = false) (Group.goroutines s))
  ∧ (∀ r, Group.waited s = Some r →
          r = Group.g_err s
          ∧ Forall (fun g => Group.returned g = true) (Group.goroutines s)).

(** A group in which no context is cancelled: no goroutine has returned
    and [g.Wait()] is blocked. *)
Definition Group_waiting (locators : list Locator) (s : Group.state) : Prop :=
  ctxs (Group.env s) = ∅
  ∧ Group.waited s = None
  ∧ length (Group.goroutines s) = length locators
  ∧ Forall (fun g => Group.returned g = false) (Group.goroutines s).

(** A group whose registrations went through: [g.err] is nothing but a
    cancellation error. *)
Definition Group_cancelled (s : Group.state) : Prop :=
  cancellations (ctxs (Group.env s))
  ∧ (∀ e, Group.g_err s = Some e → cancellation e).

(** Events of a group other than a registration that fails. *)
Definition Group_registers (ev : Group.event) : bool :=
  match ev with
  | Group.Enter _ None None => true
  | Group.Enter _ _ _ => false
  | _ => true
  end.

(** The Atlassian page: nothing was made before the first call of
    [resolveAtlassianPage]; after it, the page was made once, the login
    handler started at most once, and every answer is the one kept. *)
Definition Main_inv {World : Type} (s : main_state (World := World)) : Prop :=
  match cell s with
  | None =>
      pages_created (orchestrator s) = 0
      ∧ rootGroup (orchestrator s) = []
      ∧ answers s = []
  | Some r =>
      pages_created (orchestrator s) = 1
      ∧ (logins s ≤ 1)%nat
      ∧ Forall (eq r) (answers s)
  end.

(** ** Induction on errors *)

Section error_induction.

Context (P : error → Prop).
Context (Hvar : ∀ name msg, P (errorVar name msg)).
Context (Hstring : ∀ msg, P (errorString msg)).
Context (Hwrap : ∀ msg errs, Forall P errs → P (wrapError msg errs)).
Context (Hjoin : ∀ errs, Forall P errs → P (joinError errs)).

(** The induction principle of [error] that goes through the wrapped
    errors. *)
Fixpoint error_induction (e : error) : P e :=
  match e with
  | errorVar name msg => Hvar name msg
  | errorString msg => Hstring msg
  | wrapError msg errs =>
      Hwrap msg errs
        ((fix all (l : list error) : Forall P l :=
            match l with
            | [] => List.Forall_nil P
            | x :: l' => List.Forall_cons P x l' (error_induction x) (all l')
            end) errs)
  | joinError errs =>
      Hjoin errs
        ((fix all (l : list error) : Forall P l :=
            match l with
            | [] => List.Forall_nil P
            | x :: l' => List.Forall_cons P x l' (error_induction x) (all l')
            end) errs)
  end.

End error_induction.

(** ** The rest of the page driver *)

(** [url.URL], as far as the code reads it. *)
Record URL := { Fragment : string }.

(** The calls of [playwright.Page] and [playwright.Locator] that the
    workflow makes besides those of the Reactions, [time.Sleep] (in
    milliseconds) and [url.Parse]. *)
Class Browser (World : Type) := {
  Goto : Page → string → M World ();
  TextContent : Locator → M World string;
  All : Locator → M World (list Locator);
  InputValue : Locator → M World string;
  SelectOption : Locator → list string → bool → M World ();
  WaitForLoadState : Page → M World ();
  Page_URL : Page → World → string;
  Sleep : Z → World → World;
  url_Parse : string → URL + error;
}.

(** [time.Now], [Time.AddDate] and [Time.Before]. *)
Class Clock (World Time : Type) := {
  Now : World → Time;
  AddDate : Time → Z → Z → Z → Time;
  Before : Time → Time → bool;
}.

(** [return ..., err]. *)
Definition fail {World A : Type} (err : error) : M World A :=
  fun w => (w, inr err).

(** [if err != nil { return fmt.Errorf(prefix + "%w", err) }]. *)
Definition wrapped {World A : Type} (prefix : string) (m : M World A) : M World A :=
  fun w =>
    match m w with
    | (w', inr err) => (w', inr (errors.Errorf_w prefix err))
    | (w', inl a) => (w', inl a)
    end.

(** An action whose error passes [!errors.Is(err, playwright.ErrTimeout)]
    before it is returned. *)
Definition unless_timeout {World : Type} (m : M World ()) : M World () :=
  fun w =>
    match m w with
    | (w', inr err) =>
        if errors.Is err playwright.ErrTimeout then (w', inl ()) else (w', inr err)
    | (w', inl _) => (w', inl ())
    end.

(** [strings.ReplaceAll(s, old, new)] for an [old] of one character. *)
Fixpoint strings_ReplaceAll (s : string) (old : Ascii.ascii) (new : string) : string :=
  match s with
  | EmptyString => EmptyString
  | String c s' =>
      if Ascii.eqb c old
      then new +:+ strings_ReplaceAll s' old new
      else String c (strings_ReplaceAll s' old new)
  end.

Definition newline : Ascii.ascii := Ascii.ascii_of_nat 10.

(** The character occurs in the string. *)
Fixpoint occurs (c : Ascii.ascii) (s : string) : bool :=
  match s with
  | EmptyString => false
  | String c' s' => Ascii.eqb c' c || occurs c s'
  end.

(** ** jira.go: the sudo watcher *)

Section JiraSudo.

Context {World : Type} `{!Driver World}.

Record JiraSudoHandler := {
  Sudo_PasswordResolver : Context → M World string;
}.

Definition sudo_form_selector : string :=
  "//form[contains(@action, " +:+ dq +:+ "/WebSudoAuthenticate.jspa" +:+ dq +:+ ")]".

(** The callback that [JiraSudoHandler.Run] gives to [RunPageLocator]. *)
Definition JiraSudoHandler_cb (s : JiraSudoHandler) (ctx : Context)
    (locator : Locator) : M World () :=
  playwright.bind (Sudo_PasswordResolver s ctx) (fun password =>
  playwright.Fill (Locator_Locator locator ("[name=" +:+ dq +:+ "webSudoPassword" +:+ dq +:+ "]")) password >>
  playwright.Click (Locator_Locator locator ("[type=" +:+ dq +:+ "submit" +:+ dq +:+ "]")) None >>
  playwright.ret ()).

End JiraSudo.

(** The password resolver that main.go gives to the sudo handler; its last
    case is a nil dereference in Go. *)
Definition instance_PasswordResolver {World} (account : config.Account)
    (ctx : Context) : M World string :=
  fun w =>
    match credentials.ResolveCredentials ctx account with
    | (Some creds, None) => (w, inl (credentials.Password creds))
    | (_, Some err) => (w, inr err)
    | (None, None) => (w, inl "")
    end.

(** The username resolver that main.go gives to the Atlassian handler. *)
Definition instance_UsernameResolver {World} (account : config.Account)
    (ctx : Context) : M World string :=
  fun w =>
    match credentials.ResolveCredentials ctx account with
    | (Some creds, None) => (w, inl (credentials.Username creds))
    | (_, Some err) => (w, inr err)
    | (None, None) => (w, inl "")
    end.

(** ** atlassian.go: the Reactions of the login group *)

Section AtlassianLogin.

Context {World : Type} `{!Driver World}.

Record AtlassianLoginHandler := {
  UsernameResolver : Context → M World string;
  PasswordResolver : Context → M World string;
  OTPCodeResolver : Context → M World string;
}.

Definition atlassian_submit_selector : string :=
  "//form[@data-testid=" +:+ dq +:+ "form-login" +:+ dq +:+
  "]//*[@type=" +:+ dq +:+ "submit" +:+ dq +:+ "]".

Definition AtlassianLoginHandler_username_cb (s : AtlassianLoginHandler)
    (page : Page) (ctx : Context) (locator : Locator) : M World () :=
  playwright.bind (UsernameResolver s ctx) (fun username =>
  playwright.Fill (page_Locator page atlassian_username_selector) username >>
  playwright.Click (page_Locator page atlassian_submit_selector) None).

Definition AtlassianLoginHandler_password_cb (s : AtlassianLoginHandler)
    (page : Page) (ctx : Context) (locator : Locator) : M World () :=
  playwright.bind (PasswordResolver s ctx) (fun password =>
  playwright.Fill (page_Locator page atlassian_password_selector) password >>
  playwright.Click (page_Locator page atlassian_submit_selector) None).

Definition AtlassianLoginHandler_otp_cb (s : AtlassianLoginHandler)
    (page : Page) (ctx : Context) (locator : Locator) : M World () :=
  playwright.bind (OTPCodeResolver s ctx) (fun otpCode =>
  playwright.Fill (page_Locator page atlassian_otp_selector) otpCode).

Definition AtlassianLoginHandler_skip_cb (page : Page) (ctx : Context)
    (locator : Locator) : M World () :=
  playwright.Click (page_Locator page atlassian_skip_selector) None.

End AtlassianLogin.

(** ** atlassian.go: GetLicenseKey *)

Section GetLicenseKey.

Context {World : Type} `{!Driver World} `{!Browser World}.

Record GetLicenseKeyParams := { ServerID : string }.

Definition product_select_selector : string :=
  "//select[@id=" +:+ dq +:+ "product-select" +:+ dq +:+ "]".

Definition data_center_selector : string :=
  "//*[@data=" +:+ dq +:+ "jira-software.data-center" +:+ dq +:+ "]".

Definition data_center_primary_selector : string :=
  data_center_selector +:+ "//*[contains(concat(" +:+ dq +:+ " " +:+ dq +:+
  ", text(), " +:+ dq +:+ " " +:+ dq +:+ "), " +:+ dq +:+ " aui-button-primary " +:+ dq +:+ ")]".

Definition license_textarea_selector (fragment : string) : string :=
  "//tr[@id=" +:+ dq +:+ fragment +:+ dq +:+ "]/following::tr[@class=" +:+ dq +:+
  "evaluation" +:+ dq +:+ "][1]//textarea".

(** [time.Sleep(1 * time.Second)]. *)
Definition sleep_second : M World () :=
  fun w => (Sleep 1000%Z w, inl ()).

Definition GetLicenseKey (ctx : Context) (page : Page) (params : GetLicenseKeyParams)
  : M World string :=
  wrapped "could not navigate: "
    (Goto page "https://my.atlassian.com/license/evaluation") >>
  wrapped "could not select product: "
    (playwright.Click (page_Locator page product_select_selector) None) >>
  wrapped "could not select product: "
    (SelectOption (page_Locator page product_select_selector) ["Jira"] true) >>
  sleep_second >>
  wrapped "could not select DC: "
    (playwright.Click
       (page_Locator page (data_center_selector +:+ "//*[text()=" +:+ dq +:+ "Select" +:+ dq +:+ "]"))
       None) >>
  sleep_second >>
  wrapped "could not select DC: "
    (unless_timeout
       (playwright.Click (page_Locator page data_center_primary_selector) (Some 2%Z))) >>
  sleep_second >>
  wrapped "could not select DC: "
    (unless_timeout
       (playwright.Click (page_Locator page data_center_primary_selector) (Some 2%Z))) >>
  wrapped "could not type in server id: "
    (playwright.Fill
       (page_Locator page ("//input[@name=" +:+ dq +:+ "sid" +:+ dq +:+ "]"))
       (ServerID params)) >>
  wrapped "could generate license: "
    (playwright.Click
       (page_Locator page ("//input[@name=" +:+ dq +:+ "_action_evaluation" +:+ dq +:+ "]"))
       None) >>
  wrapped "could not wait for load state: " (WaitForLoadState page) >>
  playwright.bind
    (wrapped "could not parse page url: "
       (fun w => (w, url_Parse (Page_URL page w))))
    (fun url =>
  playwright.bind
    (wrapped "could not find license key: "
       (InputValue (page_Locator page (license_textarea_selector (Fragment url)))))
    (fun licenseKey =>
  playwright.ret (strings_ReplaceAll licenseKey newline ""))).

End GetLicenseKey.

(** ** jira.go: the license of an instance *)

Record ResolveServerIDParams := { ServerID_BaseURL : string }.

Record ResolveLicenseDetailsParams := {
  Details_BaseURL : string;
  Details_ApplicationKey : string;
}.

Record UpdateJiraLicenseKeyParams := {
  Update_BaseURL : string;
  Update_ApplicationKey : string;
  Update_LicenseKey : string;
}.

(** [applicationKey := params.ApplicationKey; if applicationKey == "" {...}] *)
Definition default_applicationKey (applicationKey : string) : string :=
  if String.eqb applicationKey "" then "jira-software" else applicationKey.

Definition application_selector (applicationKey : string) : string :=
  "//div[@data-application-key=" +:+ dq +:+ applicationKey +:+ dq +:+ "]".

Definition server_id_selector : string :=
  "//tr[td[@class='cell-type-key']/strong[text()='Server ID']]/td[@class='cell-type-value']".

Definition finish_button_selector : string :=
  "//*[@id=" +:+ dq +:+ "multiple-license-dialog" +:+ dq +:+ "]//button[text()=" +:+
  dq +:+ "Finish" +:+ dq +:+ " and not(contains(concat(" +:+ dq +:+ " " +:+ dq +:+
  ", @class, " +:+ dq +:+ " " +:+ dq +:+ "), " +:+ dq +:+ " hidden " +:+ dq +:+ "))]".

Section License.

Context {World : Type} `{!Driver World} `{!Browser World}.
Context {Time : Type} (zeroTime : Time).
Context (time_Parse : string → string → Time + error).

Record ResolveLicenseDetailsResult := {
  TrialExpiresAt : option Time;
  SEN : string;
  LicenseType : string;
  OrganisationName : string;
  LicenseKey : string;
}.

(** [var result ResolveLicenseDetailsResult] *)
Definition no_details : ResolveLicenseDetailsResult :=
  {| TrialExpiresAt := None; SEN := ""; LicenseType := "";
     OrganisationName := ""; LicenseKey := "" |}.

Definition ResolveServerID (ctx : Context) (page : Page)
    (params : ResolveServerIDParams) : M World string :=
  wrapped "could not navigate to system info: "
    (Goto page (ServerID_BaseURL params +:+ "/secure/admin/ViewSystemInfo.jspa")) >>
  playwright.Click (page_Locator page server_id_selector) None >>
  wrapped "error extracting server id from page: "
    (TextContent (page_Locator page server_id_selector)).

(** The [switch name] of the loop of [ResolveLicenseDetails]. *)
Definition ResolveLicenseDetails_field (result : ResolveLicenseDetailsResult)
    (name value : string) : ResolveLicenseDetailsResult + error :=
  if String.eqb name "Trial expires" then
    match TimeParseAny zeroTime time_Parse ["02/Jan/06"; "2 Jan 2006"] value with
    | (_, Some err) => inr err
    | (date, None) =>
        inl {| TrialExpiresAt := Some date; SEN := SEN result;
               LicenseType := LicenseType result;
               OrganisationName := OrganisationName result;
               LicenseKey := LicenseKey result |}
    end
  else if String.eqb name "Support entitlement number (SEN)" then
    inl {| TrialExpiresAt := TrialExpiresAt result; SEN := value;
           LicenseType := LicenseType result;
           OrganisationName := OrganisationName result;
           LicenseKey := LicenseKey result |}
  else if String.eqb name "License type" then
    inl {| TrialExpiresAt := TrialExpiresAt result; SEN := SEN result;
           LicenseType := value;
           OrganisationName := OrganisationName result;
           LicenseKey := LicenseKey result |}
  else if String.eqb name "Organisation name" then
    inl {| TrialExpiresAt := TrialExpiresAt result; SEN := SEN result;
           LicenseType := LicenseType result;
           OrganisationName := value;
           LicenseKey := LicenseKey result |}
  else if String.eqb name "License key" then
    inl {| TrialExpiresAt := TrialExpiresAt result; SEN := SEN result;
           LicenseType := LicenseType result;
           OrganisationName := OrganisationName result;
           LicenseKey := value |}
  else inl result.

(** [for _, item := range detailFields { ... }] *)
Fixpoint ResolveLicenseDetails_loop (detailFields : list Locator)
    (result : ResolveLicenseDetailsResult) : M World ResolveLicenseDetailsResult :=
  match detailFields with
  | [] => playwright.ret result
  | item :: detailFields' =>
      playwright.bind (playwright.InnerText (Locator_Locator item "dt") None) (fun name =>
      playwright.bind
        (TextContent (Locator_First (Locator_Locator item ".license-string-raw, dd")))
        (fun value =>
      match ResolveLicenseDetails_field result name value with
      | inr err => fail err
      | inl result' => ResolveLicenseDetails_loop detailFields' result'
      end))
  end.

Definition ResolveLicenseDetails (ctx : Context) (page : Page)
    (params : ResolveLicenseDetailsParams) : M World ResolveLicenseDetailsResult :=
  let applicationKey := default_applicationKey (Details_ApplicationKey params) in
  wrapped "could not navigate to licenses: "
    (Goto page (Details_BaseURL params +:+ "/plugins/servlet/applications/versions-licenses")) >>
  let appLocator := page_Locator page (application_selector applicationKey) in
  playwright.Click appLocator None >>
  playwright.bind (All (Locator_Locator appLocator ".license-detail-field")) (fun detailFields =>
  ResolveLicenseDetails_loop detailFields no_details).

Definition UpdateJiraLicenseKey (ctx : Context) (page : Page)
    (params : UpdateJiraLicenseKeyParams) : M World () :=
  let applicationKey := default_applicationKey (Update_ApplicationKey params) in
  wrapped "could not navigate to licenses: "
    (Goto page (Update_BaseURL params +:+ "/plugins/servlet/applications/versions-licenses")) >>
  let appLocator := page_Locator page (application_selector applicationKey) in
  playwright.Click
    (Locator_Locator appLocator ("//*[@class=" +:+ dq +:+ "update-license-key" +:+ dq +:+ "]"))
    None >>
  playwright.Fill (Locator_Locator appLocator "textarea.license-update-textarea")
    (Update_LicenseKey params) >>
  playwright.Click (Locator_Locator appLocator ".license-update-submit") None >>
  unless_timeout (playwright.Click (page_Locator page finish_button_selector) None) >>
  playwright.WaitFor (Locator_Locator appLocator "textarea.license-update-textarea")
    playwright.Hidden >>
  playwright.ret ().

(** ** main.go: processInstance *)

Context `{!Clock World Time}.

Record JiraInstance := { BaseURL : string; Account : config.Account }.

(** [licenseDetails.TrialExpiresAt != nil &&
     !licenseDetails.TrialExpiresAt.Before(time.Now().AddDate(0, 0, 7))] *)
Definition enough_trial_left (licenseDetails : ResolveLicenseDetailsResult)
    (w : World) : bool :=
  match TrialExpiresAt licenseDetails with
  | Some trialExpiresAt => negb (Before trialExpiresAt (AddDate (Now w) 0 0 7))
  | None => false
  end.

(** [processInstance], from the context [ctx] that [errgroup.WithContext]
    makes.  The login and sudo handlers that it starts with [g.TryGo] run
    beside it and are not waited for; the log is left out. *)
Definition processInstance (ctx : Context) (jiraPage : Page)
    (instance : JiraInstance)
    (getLicenseKey : Context → string → M World string) : M World () :=
  playwright.bind
    (wrapped "resolving license details: "
       (ResolveLicenseDetails ctx jiraPage
          {| Details_BaseURL := BaseURL instance; Details_ApplicationKey := "" |}))
    (fun licenseDetails w =>
  if enough_trial_left licenseDetails w then (w, inl ()) else
  (playwright.bind
    (wrapped "resolving server id: "
       (ResolveServerID ctx jiraPage {| ServerID_BaseURL := BaseURL instance |}))
    (fun serverID =>
  playwright.bind
    (wrapped "resolving license key: " (getLicenseKey ctx serverID))
    (fun licenseKey =>
  UpdateJiraLicenseKey ctx jiraPage
    {| Update_BaseURL := BaseURL instance; Update_ApplicationKey := "";
       Update_LicenseKey := licenseKey |}))) w).

End License.

(** ** The detail fields of a license, as they are read *)

Section Fields.

Context {World : Type} `{!Driver World} `{!Browser World}.
Context {Time : Type} (zeroTime : Time).
Context (time_Parse : string → string → Time + error).

(** The names and the values of the detail fields, read in the order and
    with the calls of the loop of [ResolveLicenseDetails]. *)
Fixpoint read_fields (detailFields : list Locator) : M World (list (string * string)) :=
  match detailFields with
  | [] => playwright.ret []
  | item :: detailFields' =>
      playwright.bind (playwright.InnerText (Locator_Locator item "dt") None) (fun name =>
      playwright.bind
        (TextContent (Locator_First (Locator_Locator item ".license-string-raw, dd")))
        (fun value =>
      playwright.bind (read_fields detailFields') (fun fields =>
      playwright.ret ((name, value) :: fields))))
  end.

(** The switch of the loop, over fields that were read. *)
Fixpoint set_fields (result : ResolveLicenseDetailsResult (Time := Time))
    (fields : list (string * string))
  : ResolveLicenseDetailsResult (Time := Time) + error :=
  match fields with
  | [] => inl result
  | (name, value) :: fields' =>
      match ResolveLicenseDetails_field zeroTime time_Parse result name value with
      | inr err => inr err
      | inl result' => set_fields result' fields'
      end
  end.

(** The value of the last field of that name, [d] when there is none. *)
Definition last_value (name : string) (d : string) (fields : list (string * string))
  : string :=
  fold_left (fun v field => if String.eqb field.1 name then field.2 else v) fields d.

Definition has_field (name : string) (fields : list (string * string)) : bool :=
  existsb (fun field => String.eqb field.1 name) fields.

End Fields.

(** ** A scripted browser

    A browser that answers each call with the next answer of a script, and
    fails when the answer is not one for that call. *)

Module Script.

Inductive answer : Type :=
| Ok
| Text (s : string)
| Items (n : nat)
| Opened (page : Page)
| Failure (err : error).

Definition World : Type := list answer.

Definition unexpected : error := errorString "unexpected call".

Definition act : M World () :=
  fun w =>
    match w with
    | Ok :: w' => (w', inl ())
    | Failure err :: w' => (w', inr err)
    | _ => (w, inr unexpected)
    end.

Definition text : M World string :=
  fun w =>
    match w with
    | Text s :: w' => (w', inl s)
    | Failure err :: w' => (w', inr err)
    | _ => (w, inr unexpected)
    end.

Definition items (l : Locator) : M World (list Locator) :=
  fun w =>
    match w with
    | Items n :: w' =>
        (w', inl ((fun i => Nat.iter i Locator_First l) <$> seq 0 n))
    | Failure err :: w' => (w', inr err)
    | _ => (w, inr unexpected)
    end.

Definition opens : M World Page :=
  fun w =>
    match w with
    | Opened page :: w' => (w', inl page)
    | Failure err :: w' => (w', inr err)
    | _ => (w, inr unexpected)
    end.

#[global] Instance driver : Driver World := {|
  playwright.Fill _ _ := act;
  playwright.Click _ _ := act;
  playwright.Check_ _ _ := act;
  playwright.WaitFor _ _ := act;
  playwright.InnerText _ _ := text;
  playwright.NewPage := opens;
|}.

#[global] Instance browser : Browser World := {|
  Goto _ _ := act;
  TextContent _ := text;
  All l := items l;
  InputValue _ := text;
  SelectOption _ _ _ := act;
  WaitForLoadState _ := act;
  Page_URL _ _ := "https://my.atlassian.com/license/evaluation#license";
  Sleep _ w := w;
  url_Parse _ := inl {| Fragment := "license" |};
|}.

(** Days, with today the day [0]. *)
#[global] Instance clock : Clock World Z := {|
  Now _ := 0%Z;
  AddDate t _ _ days := (t + days)%Z;
  Before t u := (t <? u)%Z;
|}.

(** A [time.Parse] that reads a day after "day " in the second layout. *)
Definition time_Parse (layout value : string) : Z + error :=
  if String.eqb layout "2 Jan 2006" then
    if String.eqb value "day 3" then inl 3%Z
    else if String.eqb value "day 30" then inl 30%Z
    else inr (errorString "cannot parse the value")
  else inr (errorString "cannot parse the value").

Definition jiraPage : Page := 0.

Definition instance : JiraInstance :=
  {| BaseURL := "https://jira.example.org";
     Account := {| config.Plain := None |} |}.

(** A timeout, as the driver reports it. *)
Definition timeout : error :=
  wrapError "timeout: Timeout 2ms exceeded."
    [playwright.ErrTimeout; errorString "Timeout 2ms exceeded."].

(** The site of Atlassian gives a license in two lines; the two clicks on
    the primary button time out. *)
Definition evaluation : World :=
  [Ok; Ok; Ok; Ok; Failure timeout; Failure timeout; Ok; Ok; Ok;
   Text ("AAAB" +:+ String newline ("CCCD" +:+ String newline ""))].


End Script.

(** ** More invariants of a group *)

(** Every goroutine of the group is given the occasion to register and
    then to wake up, the first one first. *)
Fixpoint Group_wake_all (K : nat) : list Group.event :=
  match K with
  | O => []
  | S k => Group_wake_all k ++ [Group.Enter k None None; Group.Resume k]
  end.

(** A handler on the page is the one of a goroutine that is blocked in
    its wait. *)
Definition Group_handlers (locators : list Locator) (s : Group.state) : Prop :=
  ∀ l h, (l, h) ∈ locatorHandlers (Group.env s) →
    ∃ w g, h = Group.scope_id w
           ∧ locators !! w = Some l
           ∧ Group.goroutines s !! w = Some g
           ∧ Group.pc g = Blocked.

(** Once [g.err] is set, the context of the group is cancelled. *)
Definition Group_cancels (s : Group.state) : Prop :=
  is_Some (Group.g_err s) →
  context.Done (ctxs (Group.env s)) Group.group_ctx = true.

(** The context of the group is cancelled and the goroutines below [i]
    have returned. *)
Definition Group_draining (locators : list Locator) (i : nat) (s : Group.state) : Prop :=
  context.Done (ctxs (Group.env s)) Group.group_ctx = true
  ∧ length (Group.goroutines s) = length locators
  ∧ ∀ w, w < i → ∃ g, Group.goroutines s !! w = Some g ∧ Group.returned g = true.

(** ** main.go: the loop of run over the instances *)

(** The context that [run] makes with [context.WithCancelCause], and the
    one that [errgroup.WithContext] makes from it for [rootGroup], which
    the loop reads. *)
Definition run_root_ctx : Context := cancelCtx 0 Background.
Definition run_ctx : Context := cancelCtx 1 run_root_ctx.

(** What stands for the panic of a call on a nil page. *)
Definition nil_dereference : error :=
  errorString "invalid memory address or nil pointer dereference".

Section Run.

Context {World : Type} `{!Driver World} `{!Browser World}.
Context {Time : Type} (zeroTime : Time).
Context (time_Parse : string → string → Time + error).
Context `{!Clock World Time}.

(** What [run] holds while it processes the instances: the browser with
    [rootGroup], the cell of [resolveAtlassianPage], and the contexts. *)
Record Process := {
  proc : Orchestrator (World := World);
  page_cell : option (option Page * option error);
  proc_ctxs : context.Store;
}.

(** A call of the driver acts on the browser of the process. *)
Definition on_browser {A : Type} (m : M World A) : M Process A :=
  fun s =>
    let '(w', r) := m (world (proc s)) in
    ({| proc := {| world := w'; rootGroup := rootGroup (proc s);
                   pages_created := pages_created (proc s) |};
        page_cell := page_cell s;
        proc_ctxs := proc_ctxs s |}, r).

#[global] Instance Process_driver : Driver Process := {|
  playwright.Fill l v := on_browser (playwright.Fill l v);
  playwright.Click l t := on_browser (playwright.Click l t);
  playwright.Check_ l f := on_browser (playwright.Check_ l f);
  playwright.WaitFor l st := on_browser (playwright.WaitFor l st);
  playwright.InnerText l t := on_browser (playwright.InnerText l t);
  playwright.NewPage := on_browser playwright.NewPage;
|}.

#[global] Instance Process_browser : Browser Process := {|
  Goto p u := on_browser (Goto p u);
  TextContent l := on_browser (TextContent l);
  All l := on_browser (All l);
  InputValue l := on_browser (InputValue l);
  SelectOption l vs f := on_browser (SelectOption l vs f);
  WaitForLoadState p := on_browser (WaitForLoadState p);
  Page_URL p s := Page_URL p (world (proc s));
  Sleep d s :=
    {| proc := {| world := Sleep d (world (proc s)); rootGroup := rootGroup (proc s);
                  pages_created := pages_created (proc s) |};
       page_cell := page_cell s;
       proc_ctxs := proc_ctxs s |};
  url_Parse := url_Parse (World := World);
|}.

#[global] Instance Process_clock : Clock Process Time := {|
  Now s := Now (world (proc s));
  AddDate := AddDate (World := World);
  Before := Before (World := World);
|}.

(** The function that [run] gives to [processInstance] for the license
    key, lines 244 to 253. *)
Definition run_getLicenseKey (ctx : Context) (serverId : string) : M Process string :=
  fun s =>
    let '(o', cell', (page, err)) := resolveAtlassianPage (page_cell s) (proc s) in
    match err, page with
    | Some err, _ =>
        ({| proc := o'; page_cell := cell';
            proc_ctxs := context.CancelCauseFunc run_root_ctx (Some err) (proc_ctxs s) |},
         inr context.Canceled)
    | None, Some page =>
        GetLicenseKey ctx page {| ServerID := serverId |}
          {| proc := o'; page_cell := cell'; proc_ctxs := proc_ctxs s |}
    | None, None =>
        ({| proc := o'; page_cell := cell'; proc_ctxs := proc_ctxs s |},
         inr nil_dereference)
    end.

(** The loop of [run], lines 234 to 261; [id] is the identity of the next
    instance context, the one after it that of the context of the group
    of [processInstance].  The answer is [Some] of what [run] returns from
    inside the loop, or [None] at the end of the instances.  What
    [processInstance] returns is logged, and the loop goes on. *)
Fixpoint run_loop (jiraPage : Page) (id : nat) (instances : list JiraInstance)
    (s : Process) : Process * option (option error) :=
  match instances with
  | [] => (s, None)
  | instance :: instances' =>
      if context.Done (proc_ctxs s) run_ctx
      then (s, Some (context.Err (proc_ctxs s) run_ctx))
      else
        let instanceCtx := cancelCtx id run_ctx in
        let s1 :=
          (processInstance zeroTime time_Parse (cancelCtx (S id) instanceCtx)
             jiraPage instance run_getLicenseKey s).1 in
        run_loop jiraPage (2 + id) instances'
          {| proc := proc s1; page_cell := page_cell s1;
             proc_ctxs := context.CancelFunc instanceCtx (proc_ctxs s1) |}
  end.

Definition run_init (w : World) : Process :=
  {| proc := {| world := w; rootGroup := []; pages_created := 0 |};
     page_cell := None;
     proc_ctxs := ∅ |}.

(** Every cancelled context was cancelled with [Canceled]. *)
Definition all_Canceled (σ : context.Store) : Prop :=
  ∀ id c, σ !! id = Some c → context.err c = context.Canceled.

(** The process: the Atlassian page is made when the cell is filled, and
    only then; a cell that holds an error goes with a root context that is
    cancelled. *)
Definition Process_inv (s : Process) : Prop :=
  match page_cell s with
  | None => pages_created (proc s) = 0 ∧ rootGroup (proc s) = []
  | Some r =>
      pages_created (proc s) = 1
      ∧ (length (filter is_login (rootGroup (proc s))) ≤ 1)%nat
      ∧ (is_Some r.2 → context.Done (proc_ctxs s) run_root_ctx = true)
  end
  ∧ all_Canceled (proc_ctxs s).

(** What a step of the process may do. *)
Definition Process_step (s s' : Process) : Prop :=
  (Process_inv s → Process_inv s')
  ∧ (∀ ctx, context.Done (proc_ctxs s) ctx = true →
            context.Done (proc_ctxs s') ctx = true)
  ∧ (is_Some (page_cell s) → page_cell s' = page_cell s ∧
       pages_created (proc s') = pages_created (proc s)).

End Run.

(** ** Calls that keep a relation *)

(** Whatever the computation answers, it takes the world to one that the
    relation allows. *)
Definition keeps {World A : Type} (R : World → World → Prop) (m : M World A) : Prop :=
  ∀ w w' r, m w = (w', r) → R w w'.

(** Every call of the driver keeps the relation. *)
Record Driver_keeps {World : Type} `{!Driver World} `{!Browser World}
    (R : World → World → Prop) : Prop := {
  keeps_Fill : ∀ l v, keeps R (playwright.Fill l v);
  keeps_Click : ∀ l t, keeps R (playwright.Click l t);
  keeps_Check : ∀ l f, keeps R (playwright.Check_ l f);
  keeps_WaitFor : ∀ l st, keeps R (playwright.WaitFor l st);
  keeps_InnerText : ∀ l t, keeps R (playwright.InnerText l t);
  keeps_Goto : ∀ p u, keeps R (Goto p u);
  keeps_TextContent : ∀ l, keeps R (TextContent l);
  keeps_All : ∀ l, keeps R (All l);
  keeps_InputValue : ∀ l, keeps R (InputValue l);
  keeps_SelectOption : ∀ l vs f, keeps R (SelectOption l vs f);
  keeps_WaitForLoadState : ∀ p, keeps R (WaitForLoadState p);
  keeps_Sleep : ∀ d w, R w (Sleep d w);
}.

(** * Properties *)

(** ** Errors and strings *)

Lemma Is_Canceled (target : error) :
  errors.Is context.Canceled target = errors.error_eqb context.Canceled target.
Proof. unfold context.Canceled. simpl. apply orb_false_r. Qed.

Lemma prefix_refl (s : string) : String.prefix s s = true.
Proof.
  induction s as [|c s IH]; simpl; [done|].
  destruct (Ascii.ascii_dec c c); [done | congruence].
Qed.

Lemma strings_Contains_refl (s : string) : strings_Contains s s = true.
Proof. destruct s; simpl; [done|]. rewrite prefix_refl. by destruct (Ascii.ascii_dec a a). Qed.

Lemma strings_Contains_append (p s substr : string) :
  strings_Contains s substr = true → strings_Contains (p +:+ s) substr = true.
Proof.
  intros H. induction p as [|c p IH]; simpl; [done|].
  rewrite IH. apply orb_true_r.
Qed.

(** ** credentials *)

(** C10: [ResolveCredentials] answers credentials and a nil error exactly
    when [account.Plain] is set, and then the credentials are the username
    and the password of [account.Plain]; otherwise it answers no
    credentials and the error "no credentials specified".  It never answers
    no credentials together with a nil error. *)
Theorem C10_ResolveCredentials (ctx : Context) (account : config.Account) :
  let r := credentials.ResolveCredentials ctx account in
  (is_Some r.1 ∧ r.2 = None ↔ is_Some (config.Plain account))
  ∧ r.1 = (fun plain => {| credentials.Username := config.Username plain;
                           credentials.Password := config.Password plain |})
            <$> config.Plain account
  ∧ r.2 = match config.Plain account with
          | Some _ => None
          | None => Some (errorString "no credentials specified")
          end
  ∧ ¬ (r.1 = None ∧ r.2 = None).
Proof.
  unfold credentials.ResolveCredentials.
  destruct (config.Plain account) as [plain|]; simpl.
  - split_and!; [split; eauto | done | done | by intros [? _]].
  - split_and!; [split | done | done | by intros [_ ?]].
    + by intros [[? ?] _].
    + by intros [? ?].
Qed.

(** ** TimeParseAny *)

Section TimeParseAny_spec.

Context {Time : Type} (zeroTime : Time).
Context (time_Parse : string → string → Time + error).

Lemma TimeParseAny_loop_fails errs formats value :
  Forall (fails time_Parse value) formats →
  TimeParseAny_loop zeroTime time_Parse errs formats value =
    (zeroTime, errors.Join (errs ++ parse_errors time_Parse formats value)).
Proof.
  intros Hall. revert errs.
  induction Hall as [|format formats [err Herr] _ IH]; intros errs; simpl.
  - by rewrite app_nil_r.
  - unfold parse_errors in *. simpl. rewrite Herr. simpl.
    rewrite IH. by rewrite <- app_assoc.
Qed.

Lemma TimeParseAny_loop_first errs (pre : list string) format post value date :
  Forall (fails time_Parse value) pre →
  time_Parse format value = inl date →
  TimeParseAny_loop zeroTime time_Parse errs (pre ++ format :: post)%list value =
    (date, None).
Proof.
  intros Hpre Hdate. revert errs.
  induction Hpre as [|f pre [err Herr] _ IH]; intros errs; simpl.
  - by rewrite Hdate.
  - rewrite Herr. apply IH.
Qed.

Lemma parse_errors_length formats value :
  Forall (fails time_Parse value) formats →
  length (parse_errors time_Parse formats value) = length formats.
Proof.
  induction 1 as [|format formats [err Herr] _ IH]; [done|].
  unfold parse_errors in *. simpl. rewrite Herr. simpl. f_equal. exact IH.
Qed.

(** C9, for a list with at least one format: when some format parses
    the value, the answer is the time of the first such format of the
    list and a nil error; when none does, it is the zero time and the
    join of the parse errors of the formats, in their order, which is not
    nil. *)
Theorem C9_TimeParseAny (formats : list string) (value : string) :
  formats ≠ [] →
  (∀ (pre : list string) format post date,
      formats = (pre ++ format :: post)%list →
      Forall (fails time_Parse value) pre →
      time_Parse format value = inl date →
      TimeParseAny zeroTime time_Parse formats value = (date, None))
  ∧ (Forall (fails time_Parse value) formats →
     TimeParseAny zeroTime time_Parse formats value =
       (zeroTime, Some (joinError (parse_errors time_Parse formats value)))
     ∧ length (parse_errors time_Parse formats value) = length formats).
Proof.
  intros Hne. split.
  - intros pre format post date -> Hpre Hdate.
    by apply TimeParseAny_loop_first.
  - intros Hall. split; [|by apply parse_errors_length].
    unfold TimeParseAny. rewrite TimeParseAny_loop_fails by done. simpl.
    pose proof (parse_errors_length _ _ Hall) as Hlen.
    destruct (parse_errors time_Parse formats value); [|done].
    destruct formats; [done | simpl in Hlen; lia].
Qed.

End TimeParseAny_spec.

(** C9 at the two layouts of [ResolveLicenseDetails] and a date in the
    second one. *)
Lemma C9_TimeParseAny_witness :
  ["02/Jan/06"; "2 Jan 2006"] ≠ []
  ∧ TimeParseAny 0%Z Scripted.time_Parse ["02/Jan/06"; "2 Jan 2006"] "1 Nov 2026"
    = (20261101%Z, None).
Proof.
  split; [done|].
  refine (proj1 (C9_TimeParseAny 0%Z Scripted.time_Parse
                   ["02/Jan/06"; "2 Jan 2006"] "1 Nov 2026" _)
            ["02/Jan/06"] "2 Jan 2006" [] 20261101%Z _ _ _).
  - done.
  - reflexivity.
  - repeat constructor. eexists. reflexivity.
  - reflexivity.
Defined.

(** C9 as it is written fails on the empty list of formats: no format
    parses the value, and the error is nil. *)
Lemma C9_counterexample :
  Forall (fails Scripted.time_Parse "1 Nov 2026") []
  ∧ TimeParseAny 0%Z Scripted.time_Parse [] "1 Nov 2026" = (0%Z, None).
Proof. split; [constructor | reflexivity]. Qed.

(** ** The Reaction of the login watcher *)

Section JiraLogin_spec.

Context {World : Type} `{!Driver World}.
Context (s : JiraLoginHandler (World := World)) (page : Page).
Context (ctx : Context) (locator : Locator).

(** The callback is its probe, once the form was submitted. *)
Lemma JiraLoginHandler_cb_submitted (w w1 : World) :
  JiraLoginHandler_submit s ctx locator w = (w1, inl ()) →
  JiraLoginHandler_cb s page ctx locator w = JiraLoginHandler_probe page w1.
Proof. intros Hsubmit. unfold JiraLoginHandler_cb, playwright.bind. by rewrite Hsubmit. Qed.

(** An error of the submission is the error of the callback. *)
Lemma JiraLoginHandler_cb_not_submitted (w w1 : World) (err : error) :
  JiraLoginHandler_submit s ctx locator w = (w1, inr err) →
  JiraLoginHandler_cb s page ctx locator w = (w1, inr err).
Proof. intros Hsubmit. unfold JiraLoginHandler_cb, playwright.bind. by rewrite Hsubmit. Qed.

(** C6: when the form was submitted and [InnerText] on the error banner
    fails with [err], the callback returns nil if [err] is the timeout
    error for [errors.Is] (so for [ErrTimeout] itself), and returns [err]
    if it is not. *)
Theorem C6_probe_timeout_is_success (w w1 w2 : World) (err : error) :
  JiraLoginHandler_submit s ctx locator w = (w1, inl ()) →
  playwright.InnerText (page_Locator page login_error_selector) (Some 1000%Z) w1
    = (w2, inr err) →
  (err = playwright.ErrTimeout →
   returned_error (JiraLoginHandler_cb s page ctx locator w) = None)
  ∧ (errors.Is err playwright.ErrTimeout = true →
     returned_error (JiraLoginHandler_cb s page ctx locator w) = None)
  ∧ (errors.Is err playwright.ErrTimeout = false →
     returned_error (JiraLoginHandler_cb s page ctx locator w) = Some err).
Proof.
  intros Hsubmit Hprobe.
  rewrite (JiraLoginHandler_cb_submitted _ _ Hsubmit).
  unfold JiraLoginHandler_probe. rewrite Hprobe.
  split_and!.
  - by intros ->.
  - by intros ->.
  - by intros ->.
Qed.

(** When the banner has a text, the callback fails with an error that
    carries the text. *)
Lemma JiraLoginHandler_cb_banner (w w1 w2 : World) (loginErr : string) :
  JiraLoginHandler_submit s ctx locator w = (w1, inl ()) →
  playwright.InnerText (page_Locator page login_error_selector) (Some 1000%Z) w1
    = (w2, inl loginErr) →
  ∃ err, returned_error (JiraLoginHandler_cb s page ctx locator w) = Some err
         ∧ errors.Error err = "login error: " +:+ loginErr
         ∧ strings_Contains (errors.Error err) loginErr = true.
Proof.
  intros Hsubmit Hprobe.
  rewrite (JiraLoginHandler_cb_submitted _ _ Hsubmit).
  unfold JiraLoginHandler_probe. rewrite Hprobe.
  eexists. split_and!; [done | done |].
  apply (strings_Contains_append "login error: "), strings_Contains_refl.
Qed.

End JiraLogin_spec.

(** C6 in the scripted browser whose error banner times out. *)
Lemma C6_probe_timeout_is_success_witness :
  returned_error
    (JiraLoginHandler_cb Scripted.handler Scripted.jiraPage Watch.caller_ctx
       Scripted.form (inr playwright.ErrTimeout)) = None.
Proof.
  refine (proj1 (C6_probe_timeout_is_success Scripted.handler Scripted.jiraPage
                   Watch.caller_ctx Scripted.form
                   (inr playwright.ErrTimeout) (inr playwright.ErrTimeout)
                   (inr playwright.ErrTimeout) playwright.ErrTimeout _ _) _);
    reflexivity.
Defined.

(** ** Contexts *)

Section context_spec.

Import context.

Lemma cancellations_empty : cancellations ∅.
Proof. intros id c. by rewrite lookup_empty. Qed.

Lemma cancellations_cancel ctx e c σ :
  cancellation e → cancellations σ → cancellations (cancel ctx e c σ).
Proof.
  intros He Hσ. unfold cancel.
  destruct ctx as [|id parent]; [done|].
  destruct (state σ (cancelCtx id parent)); [done|].
  intros id' c'. rewrite lookup_insert.
  case_decide; [|by apply Hσ].
  by intros [= <-].
Qed.

Lemma cancellations_CancelCauseFunc ctx c σ :
  cancellations σ → cancellations (CancelCauseFunc ctx c σ).
Proof. apply cancellations_cancel. by left. Qed.

Lemma cancellations_CancelFunc ctx σ :
  cancellations σ → cancellations (CancelFunc ctx σ).
Proof. apply cancellations_cancel. by left. Qed.

Lemma cancellations_deadline ctx σ :
  cancellations σ → cancellations (deadline ctx σ).
Proof. apply cancellations_cancel. by right. Qed.

Lemma state_cancellation σ ctx c :
  cancellations σ → state σ ctx = Some c → cancellation (err c).
Proof.
  intros Hσ. induction ctx as [|id parent IH]; simpl; [done|].
  destruct (σ !! id) as [c'|] eqn:Hid; [|done].
  intros [= <-]. by eapply Hσ.
Qed.

Lemma Err_cancellation σ ctx e :
  cancellations σ → Err σ ctx = Some e → cancellation e.
Proof.
  unfold Err. intros Hσ. destruct (state σ ctx) as [c|] eqn:Hc; [|done].
  intros [= <-]. by eapply state_cancellation.
Qed.

Lemma state_empty ctx : state ∅ ctx = None.
Proof. induction ctx as [|id parent IH]; simpl; [done|]. by rewrite lookup_empty. Qed.

Lemma Done_empty ctx : Done ∅ ctx = false.
Proof. unfold Done. rewrite state_empty. apply bool_decide_eq_false. by intros [? ?]. Qed.

(** Once [ctx.Done()] is closed, [ctx.Err()] is not nil. *)
Lemma Done_Err σ ctx : Done σ ctx = true → is_Some (Err σ ctx).
Proof.
  unfold Done, Err. intros H%bool_decide_eq_true.
  destruct H as [c ->]. by eexists.
Qed.

(** The first cancellation wins. *)
Lemma cancel_Done ctx e c σ : Done σ ctx = true → cancel ctx e c σ = σ.
Proof.
  unfold Done, cancel. intros H%bool_decide_eq_true.
  destruct ctx as [|id parent]; [done|]. by destruct H as [c' ->].
Qed.

End context_spec.

(** ** The handlers of a page *)

Lemma registered_AddLocatorHandler l h hs :
  playwright.registered l h (playwright.AddLocatorHandler l h hs) = true.
Proof.
  apply bool_decide_eq_true. unfold playwright.AddLocatorHandler.
  apply elem_of_app. right. by apply list_elem_of_singleton.
Qed.

Lemma registered_RemoveLocatorHandler l h hs :
  playwright.registered l h (playwright.RemoveLocatorHandler l hs) = false.
Proof.
  apply bool_decide_eq_false. unfold playwright.RemoveLocatorHandler.
  rewrite list_elem_of_filter. by intros [? _].
Qed.

Lemma registered_alone l h : playwright.registered l h [(l, h)] = true.
Proof. apply (registered_AddLocatorHandler l h []). Qed.

(** Removing the handlers of a locator that has none changes nothing. *)
Lemma RemoveLocatorHandler_idempotent l hs :
  playwright.RemoveLocatorHandler l (playwright.RemoveLocatorHandler l hs)
  = playwright.RemoveLocatorHandler l hs.
Proof.
  unfold playwright.RemoveLocatorHandler.
  induction hs as [|lh hs IH]; [done|].
  rewrite (filter_cons _ lh hs). case_decide as Hlh; [|done].
  rewrite (filter_cons _ lh). case_decide; [|done]. by rewrite IH.
Qed.

(** ** RunPageLocator *)

Section RunPageLocator_spec.

Context (ctx : Context) (id : nat) (locator : Locator).

(** An early return of [RunPageLocator] is an error. *)
Lemma RunPageLocator_enter_Returned page_err add_err env env' r :
  RunPageLocator_enter id locator page_err add_err env = (env', Returned r) →
  is_Some r ∧ env' = env.
Proof.
  unfold RunPageLocator_enter.
  destruct page_err, add_err; intros [= <- <-]; eauto.
Qed.

(** The return after the wait is the error of the context, never nil,
    and the handlers of the locator are gone. *)
Lemma RunPageLocator_leave_Some env env' r :
  RunPageLocator_leave ctx id locator env = Some (env', r) →
  context.Done (ctxs env) (scope ctx id) = true
  ∧ r = context.Err (ctxs env) (scope ctx id)
  ∧ is_Some r
  ∧ ctxs env' = ctxs env
  ∧ playwright.registered locator id (locatorHandlers env') = false.
Proof.
  unfold RunPageLocator_leave.
  destruct (context.Done (ctxs env) (scope ctx id)) eqn:Hdone; [|done].
  intros [= <- <-]. split_and!; try done.
  - by apply Done_Err.
  - apply registered_RemoveLocatorHandler.
Qed.

(** A callback that succeeds leaves the contexts as they are. *)
Lemma RunPageLocator_handler_nil env :
  RunPageLocator_handler ctx id None env = env.
Proof. done. Qed.

Lemma RunPageLocator_handler_cancellations r env :
  cancellations (ctxs env) →
  cancellations (ctxs (RunPageLocator_handler ctx id r env)).
Proof.
  intros Henv. destruct r as [err|]; [|done].
  exact (cancellations_CancelCauseFunc (scope ctx id) (Some err) _ Henv).
Qed.

End RunPageLocator_spec.

(** ** Runs *)

Lemma fold_left_invariant {S E : Type} (P : S → Prop) (Q : E → bool) (f : S → E → S) :
  (∀ s e, Q e = true → P s → P (f s e)) →
  ∀ tr s, forallb Q tr = true → P s → P (fold_left f tr s).
Proof.
  intros Hstep tr. induction tr as [|e tr IH]; intros s Hall Hs; simpl; [done|].
  simpl in Hall. apply andb_prop in Hall as [He Htr].
  apply IH; [done|]. by apply Hstep.
Qed.

Lemma forallb_any {E : Type} (tr : list E) : forallb (fun _ => true) tr = true.
Proof. by induction tr. Qed.

Ltac evaluate_run :=
  unfold Watch.run, Group.run, Watch.result, Watch.handler_registered;
  repeat (cbn -[playwright.registered context.Done context.Err context.Cause
                context.CancelCauseFunc context.CancelFunc context.deadline];
          rewrite ?registered_alone);
  vm_compute.

(** ** One call of RunPageLocator *)

Section Watch_spec.

Import Watch.
Context (locator : Locator).

Lemma Watch_inv_init : Watch_inv locator init.
Proof. split; [apply cancellations_empty | done]. Qed.

Lemma Watch_inv_step s ev :
  Watch_inv locator s → Watch_inv locator (step locator s ev).
Proof.
  intros [Hσ Hpc]. unfold Watch_inv, handler_registered in *.
  destruct s as [[σ hs] p n]. simpl in *.
  destruct ev as [page_err add_err| |r| | |]; simpl.
  - destruct p; try by split. subst hs.
    destruct page_err, add_err; simpl; eauto.
  - destruct (playwright.registered locator scope_id hs) eqn:Hreg; simpl;
      (split; [done|]); destruct p; try done;
      destruct Hpc; split; congruence.
  - destruct n; [by split|]. simpl. split; [|by destruct r].
    exact (RunPageLocator_handler_cancellations caller_ctx scope_id r
             {| ctxs := σ; locatorHandlers := hs |} Hσ).
  - split; [exact (cancellations_CancelFunc caller_ctx σ Hσ) | done].
  - split; [exact (cancellations_deadline caller_ctx σ Hσ) | done].
  - destruct p; try by split.
    destruct (RunPageLocator_leave caller_ctx scope_id locator
                {| ctxs := σ; locatorHandlers := hs |}) as [[env' r]|] eqn:Hleave;
      [|by split].
    apply RunPageLocator_leave_Some in Hleave as (_ & _ & Hr & Hσ' & Hgone).
    simpl in *. by rewrite Hσ'.
Qed.

(** Every run keeps the invariant. *)
Lemma Watch_inv_run tr : Watch_inv locator (run locator tr).
Proof.
  apply (fold_left_invariant (Watch_inv locator) (fun _ => true)).
  - intros s ev _. apply Watch_inv_step.
  - apply forallb_any.
  - apply Watch_inv_init.
Qed.

(** [RunPageLocator] never returns nil, and when it has returned its
    handler is not in the table of the page. *)
Lemma Watch_result_error tr r :
  result (run locator tr) = Some r →
  is_Some r ∧ handler_registered locator (run locator tr) = false.
Proof.
  pose proof (Watch_inv_run tr) as [_ Hpc]. unfold result.
  destruct (pc (run locator tr)); [done | done |].
  by intros [= <-].
Qed.

Lemma Watch_waiting_step s ev :
  quiet ev = true → Watch_waiting locator s → Watch_waiting locator (step locator s ev).
Proof.
  intros Hev (Hσ & Hpc & Hreg). unfold Watch_waiting, handler_registered in *.
  destruct s as [[σ hs] p n]. simpl in *. subst σ p.
  destruct ev as [page_err add_err| |[err|]| | |]; try done; simpl.
  - by rewrite Hreg.
  - by destruct n.
Qed.

(** The call waits after its registration, and keeps waiting while no
    callback fails and the caller leaves its context alone. *)
Lemma Watch_waiting_run tr :
  forallb quiet tr = true →
  Watch_waiting locator (run locator (Enter None None :: tr)).
Proof.
  intros Hquiet. unfold run. simpl fold_left.
  apply (fold_left_invariant (Watch_waiting locator) quiet); [|done|].
  - intros s ev. apply Watch_waiting_step.
  - split_and!; [done | done |].
    apply (registered_AddLocatorHandler locator scope_id []).
Qed.

Lemma Watch_cancelled_step s ev :
  (∀ page_err add_err, ev = Enter page_err add_err → page_err = None ∧ add_err = None) →
  Watch_cancelled s → Watch_cancelled (step locator s ev).
Proof.
  intros Hev [Hσ Hpc]. unfold Watch_cancelled in *.
  destruct s as [[σ hs] p n]. simpl in *.
  destruct ev as [page_err add_err| |r| | |]; simpl.
  - destruct p; try by split.
    destruct (Hev _ _ eq_refl) as [-> ->]. by split.
  - destruct (playwright.registered locator scope_id hs); simpl; by split.
  - destruct n; [by split|]. simpl. split; [|done].
    exact (RunPageLocator_handler_cancellations caller_ctx scope_id r
             {| ctxs := σ; locatorHandlers := hs |} Hσ).
  - split; [exact (cancellations_CancelFunc caller_ctx σ Hσ) | done].
  - split; [exact (cancellations_deadline caller_ctx σ Hσ) | done].
  - destruct p; try by split.
    destruct (RunPageLocator_leave caller_ctx scope_id locator
                {| ctxs := σ; locatorHandlers := hs |}) as [[env' r]|] eqn:Hleave;
      [|by split].
    apply RunPageLocator_leave_Some in Hleave as (_ & -> & [e He] & Hσ' & _).
    simpl in *. rewrite Hσ'. split; [done|].
    exists e. split; [done|]. by eapply Err_cancellation.
Qed.

End Watch_spec.

Lemma error_eqb_errorVar name msg (e : error) :
  errors.error_eqb (errorVar name msg) e = true → e = errorVar name msg.
Proof.
  destruct e as [name' msg'| | |]; simpl; try done.
  intros [Hname Hmsg]%andb_prop.
  apply String.eqb_eq in Hname, Hmsg. by subst.
Qed.

(** Only [Canceled] itself is found in [Canceled] by [errors.Is]. *)
Lemma Is_Canceled_false (e : error) :
  e ≠ context.Canceled → errors.Is context.Canceled e = false.
Proof.
  intros Hne. rewrite Is_Canceled.
  destruct (errors.error_eqb context.Canceled e) eqn:Heq; [|done].
  by apply error_eqb_errorVar in Heq.
Qed.

Section Watch_claims.

Import Watch.
Context (locator : Locator).

(** When the registration goes through, whatever happens next,
    [RunPageLocator] returns nothing but a cancellation error: an error
    of a callback is never what it returns. *)
Lemma Watch_returns_cancellation tr r :
  forallb Watch_registers tr = true →
  result (run locator tr) = Some r →
  ∃ e, r = Some e ∧ cancellation e.
Proof.
  intros Htr.
  assert (Watch_cancelled (run locator tr)) as [_ Hpc].
  { apply (fold_left_invariant Watch_cancelled Watch_registers); [|done|].
    - intros s ev Hev. apply Watch_cancelled_step.
      intros page_err add_err ->. by destruct page_err, add_err.
    - split; [apply cancellations_empty | done]. }
  unfold result. destruct (pc (run locator tr)); try done.
  by intros [= <-].
Qed.

(** C1, as the code has it: after a callback that succeeds on the first
    trigger, [RunPageLocator] has not returned and its handler is still on
    the page, for as long as no callback fails and the caller leaves its
    context alone.  [RunPageLocator] never returns nil: what it returns is
    an error, and when it has returned its handler is off the page. *)
Theorem C1_success_keeps_waiting (tr tr' : list event) :
  forallb quiet tr = true →
  (let s := run locator (Enter None None :: Trigger :: Complete None :: tr) in
   result s = None ∧ handler_registered locator s = true)
  ∧ (∀ r, result (run locator tr') = Some r →
          is_Some r ∧ handler_registered locator (run locator tr') = false).
Proof.
  intros Hquiet. split; [|apply Watch_result_error].
  destruct (Watch_waiting_run locator (Trigger :: Complete None :: tr))
    as (_ & Hpc & Hreg); [done|].
  unfold result. by rewrite Hpc.
Qed.

(** C2 on the code: a callback fails with [e] on the first trigger, and
    [RunPageLocator] returns [Canceled]; [e] is the cause of the context,
    which is not read, and is not to be found in what is returned. *)
Theorem C2_Reaction_error_is_lost (e : error) :
  e ≠ context.Canceled →
  let s := run locator [Enter None None; Trigger; Complete (Some e); Resume] in
  result s = Some (Some context.Canceled)
  ∧ context.Cause (ctxs (env s)) (scope caller_ctx scope_id) = Some e
  ∧ errors.Is context.Canceled e = false.
Proof.
  intros Hne. split_and!; [by evaluate_run | by evaluate_run |].
  by apply Is_Canceled_false.
Qed.


End Watch_claims.

(** C1 for the login form of Jira. *)
Lemma C1_success_keeps_waiting_witness :
  Watch.result (Watch.run Scripted.form
                  [Watch.Enter None None; Watch.Trigger; Watch.Complete None;
                   Watch.Trigger; Watch.Complete None; Watch.Resume]) = None.
Proof.
  refine (proj1 (proj1 (C1_success_keeps_waiting Scripted.form
                          [Watch.Trigger; Watch.Complete None; Watch.Resume]
                          [] _))).
  reflexivity.
Defined.

(** C1 as it is written fails: the callback of the login form succeeds on
    its first trigger, and [RunPageLocator] has not returned, its handler is
    still on the page, and nothing that happens later makes it return nil. *)
Lemma C1_counterexample :
  let tr := [Watch.Enter None None; Watch.Trigger; Watch.Complete None] in
  Watch.result (Watch.run Scripted.form tr) = None
  ∧ Watch.handler_registered Scripted.form (Watch.run Scripted.form tr) = true
  ∧ ∀ rest, Watch.result (Watch.run Scripted.form (tr ++ rest)) ≠ Some None.
Proof.
  split_and!; [by vm_compute | by vm_compute |].
  intros rest Hnil. apply Watch_result_error in Hnil as [[e He] _]. done.
Qed.

(** C2 for the error of [ResolveCredentials]. *)
Lemma C2_Reaction_error_is_lost_witness :
  Watch.result (Watch.run Scripted.form
                  [Watch.Enter None None; Watch.Trigger;
                   Watch.Complete (Some (errorString "no credentials specified"));
                   Watch.Resume])
  = Some (Some context.Canceled).
Proof.
  refine (proj1 (C2_Reaction_error_is_lost Scripted.form
                   (errorString "no credentials specified") _)).
  discriminate.
Defined.

(** ** A group of watchers *)

Lemma forallb_Forall {A : Type} (f : A → bool) (l : list A) :
  forallb f l = true ↔ Forall (fun x => f x = true) l.
Proof.
  induction l as [|x l IH]; simpl.
  - split; [constructor | done].
  - rewrite andb_true_iff, IH. split.
    + intros [? ?]. by constructor.
    + by inversion 1.
Qed.

Lemma Forall_true_false {A : Type} (f : A → bool) (l : list A) :
  Forall (fun x => f x = true) l → Forall (fun x => f x = false) l → l = [].
Proof.
  destruct l as [|x l]; [done|].
  do 2 inversion 1. congruence.
Qed.

Section Group_spec.

Import Group.
Context (locators : list Locator).

(** What [errgroup] keeps of a return. *)
Lemma errgroup_done_spec gctx r g σ g' σ' :
  errgroup.done gctx r g σ = (g', σ') →
  (is_Some g → g' = g)
  ∧ (g = None → g' = r)
  ∧ (is_Some r → is_Some g')
  ∧ (cancellations σ → cancellations σ').
Proof.
  unfold errgroup.done.
  destruct r as [err|], g as [err'|]; intros [= <- <-]; split_and!;
    try done; try by intros [? ?].
  apply cancellations_CancelCauseFunc.
Qed.

Lemma Group_inv_init : Group_inv locators (init locators).
Proof.
  unfold Group_inv, init. simpl. split_and!.
  - apply length_fmap.
  - apply Forall_fmap, Forall_true. by intros g r.
  - right. apply Forall_fmap, Forall_true. by intros g.
  - done.
Qed.

(** A goroutine returns an error. *)
Lemma Group_inv_returns w n r env' s g :
  Group_inv locators s →
  goroutines s !! w = Some g → returned g = false → is_Some r →
  Group_inv locators (returns w n r env' s).
Proof.
  intros (Hlen & Herr & Hfirst & Hwait) Hw Hg Hr. unfold returns.
  destruct (errgroup.done group_ctx r (g_err s) (ctxs env')) as [g_err' σ'] eqn:Hdone.
  apply errgroup_done_spec in Hdone as (_ & _ & Hsome & _).
  unfold Group_inv. simpl. split_and!.
  - by rewrite length_insert.
  - apply Forall_insert; [done|]. simpl. by intros r' [= <-].
  - left. by apply Hsome.
  - intros r' Hr'. destruct (Hwait r' Hr') as [_ Hall].
    rewrite Forall_lookup in Hall. specialize (Hall w g Hw). congruence.
Qed.

(** A goroutine goes on, where it stands or from its registration to
    its wait. *)
Lemma Group_inv_goes_on w g g' env' s :
  Group_inv locators s →
  goroutines s !! w = Some g → returned g' = false → returned g = false →
  Group_inv locators
    {| env := env'; goroutines := <[w := g']> (goroutines s);
       g_err := g_err s; waited := waited s |}.
Proof.
  intros (Hlen & Herr & Hfirst & Hwait) Hw Hg' Hg.
  unfold Group_inv. simpl. split_and!.
  - by rewrite length_insert.
  - apply Forall_insert; [done|]. intros r Hr. unfold returned in Hg'.
    by rewrite Hr in Hg'.
  - destruct Hfirst as [?|Hnone]; [by left | right].
    by apply Forall_insert.
  - intros r' Hr'. destruct (Hwait r' Hr') as [_ Hall].
    rewrite Forall_lookup in Hall. specialize (Hall w g Hw). congruence.
Qed.

(** A callback starts or ends in a goroutine, which stays where it is. *)
Lemma Group_inv_callback w g n env' s :
  Group_inv locators s →
  goroutines s !! w = Some g →
  Group_inv locators
    {| env := env'; goroutines := <[w := {| pc := pc g; running := n |}]> (goroutines s);
       g_err := g_err s; waited := waited s |}.
Proof.
  intros (Hlen & Herr & Hfirst & Hwait) Hw.
  pose proof Herr as Herr'. rewrite Forall_lookup in Herr'.
  unfold Group_inv. simpl. split_and!.
  - by rewrite length_insert.
  - apply Forall_insert; [done|]. simpl. by apply (Herr' w g).
  - destruct Hfirst as [?|Hnone]; [by left | right].
    apply Forall_insert; [done|].
    rewrite Forall_lookup in Hnone. by apply (Hnone w g).
  - intros r' Hr'. destruct (Hwait r' Hr') as [-> Hall]. split; [done|].
    apply Forall_insert; [done|].
    rewrite Forall_lookup in Hall. by apply (Hall w g).
Qed.

Lemma Group_inv_env env' s :
  Group_inv locators s →
  Group_inv locators
    {| env := env'; goroutines := goroutines s; g_err := g_err s; waited := waited s |}.
Proof. done. Qed.

Lemma Group_inv_step s ev :
  Group_inv locators s → Group_inv locators (step locators s ev).
Proof.
  intros Hs. destruct ev as [w page_err add_err|w|w r|w| | |]; simpl.
  - destruct (locators !! w) as [locator|]; [|done].
    destruct (goroutines s !! w) as [[[| |r] n]|] eqn:Hw; try done.
    destruct (RunPageLocator_enter (scope_id w) locator page_err add_err (env s))
      as [env' [| |r]] eqn:Henter.
    + by apply (Group_inv_goes_on w _ _ env' s Hs Hw).
    + by apply (Group_inv_goes_on w _ _ env' s Hs Hw).
    + apply RunPageLocator_enter_Returned in Henter as [Hr _].
      by apply (Group_inv_returns w n r env' s _ Hs Hw).
  - destruct (locators !! w) as [locator|]; [|done].
    destruct (goroutines s !! w) as [g|] eqn:Hw; [|done].
    destruct (playwright.registered _ _ _); [|done].
    by apply Group_inv_callback.
  - destruct (goroutines s !! w) as [[p [|n]]|] eqn:Hw; try done.
    by apply (Group_inv_callback w _ n _ s Hs Hw).
  - destruct (locators !! w) as [locator|]; [|done].
    destruct (goroutines s !! w) as [[[| |r] n]|] eqn:Hw; try done.
    destruct (RunPageLocator_leave group_ctx (scope_id w) locator (env s))
      as [[env' r]|] eqn:Hleave; [|done].
    apply RunPageLocator_leave_Some in Hleave as (_ & _ & Hr & _).
    by apply (Group_inv_returns w n r env' s _ Hs Hw).
  - by apply Group_inv_env.
  - by apply Group_inv_env.
  - destruct (waited s) eqn:Hwaited; [done|].
    destruct (forallb returned (goroutines s)) eqn:Hall; [|done].
    destruct Hs as (Hlen & Herr & Hfirst & Hwait).
    unfold Group_inv. simpl. split_and!; try done.
    intros r [= <-]. split; [done|]. by apply forallb_Forall.
Qed.

Lemma Group_inv_run tr : Group_inv locators (run locators tr).
Proof.
  apply (fold_left_invariant (Group_inv locators) (fun _ => true)).
  - intros s ev _. apply Group_inv_step.
  - apply forallb_any.
  - apply Group_inv_init.
Qed.

(** A group with a watcher never returns nil from [g.Wait()]. *)
Lemma Group_waited_error tr :
  locators ≠ [] → waited (run locators tr) ≠ Some None.
Proof.
  intros Hne Hnil.
  destruct (Group_inv_run tr) as (Hlen & _ & Hfirst & Hwait).
  destruct (Hwait None Hnil) as [Herr Hall].
  destruct Hfirst as [Hsome|Hnone].
  - rewrite <- Herr in Hsome. by destruct Hsome.
  - rewrite (Forall_true_false _ _ Hall Hnone) in Hlen.
    by destruct locators.
Qed.

End Group_spec.

Section Group_runs.

Import Group.
Context (locators : list Locator).

Lemma Group_waiting_step s ev :
  locators ≠ [] → quiet ev = true →
  Group_waiting locators s → Group_waiting locators (step locators s ev).
Proof.
  intros Hne Hev (Hσ & Hwaited & Hlen & Hnone).
  pose proof Hnone as Hlookup. rewrite Forall_lookup in Hlookup.
  destruct s as [[σ hs] gs err wt]. simpl in *. subst σ wt.
  destruct ev as [w [?|] [?|]|w|w [?|]|w| | |]; try done; simpl.
  - destruct (locators !! w) as [locator|]; [|done].
    destruct (gs !! w) as [[[| |r] n]|] eqn:Hw; try done.
    unfold Group_waiting. simpl. split_and!; try done.
    + by rewrite length_insert.
    + by apply Forall_insert.
  - destruct (locators !! w) as [locator|]; [|done].
    destruct (gs !! w) as [g|] eqn:Hw; [|done].
    destruct (playwright.registered _ _ _); [|done].
    unfold Group_waiting. simpl. split_and!; try done.
    + by rewrite length_insert.
    + apply Forall_insert; [done|]. by apply (Hlookup w g).
  - destruct (gs !! w) as [[p [|n]]|] eqn:Hw; try done.
    unfold Group_waiting. simpl. split_and!; try done.
    + by rewrite length_insert.
    + apply Forall_insert; [done|]. by apply (Hlookup w _ Hw).
  - destruct (locators !! w) as [locator|]; [|done].
    destruct (gs !! w) as [[[| |r] n]|] eqn:Hw; try done.
  - destruct (forallb returned gs) eqn:Hall; [|done].
    apply forallb_Forall in Hall.
    rewrite (Forall_true_false _ _ Hall Hnone) in Hlen.
    by destruct locators.
Qed.

(** While no registration fails, no callback fails and the caller leaves
    its context alone, no goroutine of the group returns and [g.Wait()]
    stays blocked. *)
Lemma Group_waiting_run tr :
  locators ≠ [] → forallb quiet tr = true →
  Group_waiting locators (run locators tr).
Proof.
  intros Hne Hquiet.
  apply (fold_left_invariant (Group_waiting locators) quiet); [|done|].
  - intros s ev. by apply Group_waiting_step.
  - unfold Group_waiting, init. simpl. split_and!; try done.
    + apply length_fmap.
    + apply Forall_fmap, Forall_true. by intros g.
Qed.

Lemma Group_cancelled_returns w n e env' s :
  cancellations (ctxs env') → cancellation e →
  Group_cancelled s → Group_cancelled (returns w n (Some e) env' s).
Proof.
  intros Henv He [Hσ Herr]. unfold returns.
  destruct (errgroup.done group_ctx (Some e) (g_err s) (ctxs env'))
    as [g_err' σ'] eqn:Hdone.
  apply errgroup_done_spec in Hdone as (Hkept & Hset & _ & Hσ').
  unfold Group_cancelled. simpl. split; [by apply Hσ'|].
  destruct (g_err s) as [e0|] eqn:Hg.
  - rewrite Hkept by eauto. apply Herr.
  - rewrite Hset by done. by intros e' [= <-].
Qed.

Lemma Group_cancelled_step s ev :
  Group_registers ev = true →
  Group_cancelled s → Group_cancelled (step locators s ev).
Proof.
  intros Hev [Hσ Herr].
  destruct ev as [w [?|] [?|]|w|w r|w| | |]; try done; simpl.
  - destruct (locators !! w) as [locator|]; [|done].
    destruct (goroutines s !! w) as [[[| |r] n]|] eqn:Hw; done.
  - destruct (locators !! w) as [locator|]; [|done].
    destruct (goroutines s !! w) as [g|] eqn:Hw; [|done].
    by destruct (playwright.registered _ _ _).
  - destruct (goroutines s !! w) as [[p [|n]]|] eqn:Hw; try done.
    split; [|done].
    exact (RunPageLocator_handler_cancellations group_ctx (scope_id w) r (env s) Hσ).
  - destruct (locators !! w) as [locator|]; [|done].
    destruct (goroutines s !! w) as [[[| |r] n]|] eqn:Hw; try done.
    destruct (RunPageLocator_leave group_ctx (scope_id w) locator (env s))
      as [[env' r]|] eqn:Hleave; [|done].
    apply RunPageLocator_leave_Some in Hleave as (_ & -> & [e He] & Hσ' & _).
    rewrite He. apply Group_cancelled_returns; [by rewrite Hσ' | | done].
    by eapply Err_cancellation.
  - split; [|done]. exact (cancellations_CancelFunc caller_ctx _ Hσ).
  - split; [|done]. exact (cancellations_deadline caller_ctx _ Hσ).
  - destruct (waited s); [done|].
    destruct (forallb returned (goroutines s)); [|done].
    split; [|done]. exact (cancellations_CancelCauseFunc group_ctx _ _ Hσ).
Qed.

(** When the registrations go through, whatever happens next and in
    whatever order, what [g.Wait()] returns is nothing but a cancellation
    error: an error of a callback is never what the group returns. *)
Lemma Group_returns_cancellation tr r :
  locators ≠ [] → forallb Group_registers tr = true →
  waited (run locators tr) = Some r →
  ∃ e, r = Some e ∧ cancellation e.
Proof.
  intros Hne Htr Hr.
  assert (Group_cancelled (run locators tr)) as [_ Herr].
  { apply (fold_left_invariant Group_cancelled Group_registers); [|done|].
    - intros s ev. apply Group_cancelled_step.
    - split; [apply cancellations_empty | done]. }
  destruct (Group_inv_run locators tr) as (_ & _ & _ & Hwait).
  destruct (Hwait r Hr) as [-> _].
  destruct (g_err (run locators tr)) as [e|] eqn:Hg.
  - exists e. split; [done|]. by apply Herr.
  - by destruct (Group_waited_error locators tr Hne).
Qed.

End Group_runs.

Section Group_claims.

Import Group.

(** C3, as the code has it: in a group with a watcher, while no
    registration fails, no callback fails and the caller leaves its
    context alone, [g.Wait()] has not returned, however many callbacks
    have succeeded and in whatever order; and [g.Wait()] never returns
    nil, whatever happens. *)
Theorem C3_group_keeps_waiting (locators : list Locator) (tr tr' : list event) :
  locators ≠ [] →
  forallb quiet tr = true →
  waited (run locators tr) = None
  ∧ waited (run locators tr') ≠ Some None.
Proof.
  intros Hne Hquiet. split; [|by apply Group_waited_error].
  by destruct (Group_waiting_run locators tr Hne Hquiet) as (_ & Hwaited & _).
Qed.

(** C4 on the code: in the group of the Atlassian login, the callbacks of
    three watchers succeed and the one of the password watcher fails with
    [e]; every goroutine returns, and [g.Wait()] returns [Canceled], in
    which [e] is not to be found. *)
Theorem C4_group_error_is_lost (e : error) :
  e ≠ context.Canceled →
  let s := run (AtlassianLoginHandler_locators 1)
             [Enter 0 None None; Enter 1 None None; Enter 2 None None;
              Enter 3 None None;
              Trigger 0; Complete 0 None; Trigger 3; Complete 3 None;
              Trigger 2; Complete 2 None; Trigger 1; Complete 1 (Some e);
              Resume 1; Resume 0; Resume 2; Resume 3; Wait] in
  waited s = Some (Some context.Canceled)
  ∧ context.Cause (ctxs (env s)) (scope group_ctx (scope_id 1)) = Some e
  ∧ errors.Is context.Canceled e = false.
Proof.
  intros Hne. split_and!; [by vm_compute | by vm_compute |].
  by apply Is_Canceled_false.
Qed.

End Group_claims.

(** C3 for the group of the Atlassian login and a callback that succeeds
    in each of its watchers. *)
Lemma C3_group_keeps_waiting_witness :
  Group.waited
    (Group.run (AtlassianLoginHandler_locators 1)
       [Group.Enter 0 None None; Group.Enter 1 None None;
        Group.Enter 2 None None; Group.Enter 3 None None;
        Group.Trigger 1; Group.Complete 1 None; Group.Trigger 0;
        Group.Complete 0 None; Group.Trigger 3; Group.Complete 3 None;
        Group.Trigger 2; Group.Complete 2 None; Group.Wait]) = None.
Proof.
  refine (proj1 (C3_group_keeps_waiting (AtlassianLoginHandler_locators 1) _ [] _ _)).
  - discriminate.
  - reflexivity.
Defined.

(** C3 as it is written fails: the four callbacks of the Atlassian login
    have succeeded, every goroutine was given the occasion to wake up, and
    [g.Wait()] has not returned; nothing that happens later makes it return
    nil. *)
Lemma C3_counterexample :
  let tr := [Group.Enter 0 None None; Group.Enter 1 None None;
             Group.Enter 2 None None; Group.Enter 3 None None;
             Group.Trigger 0; Group.Complete 0 None;
             Group.Trigger 1; Group.Complete 1 None;
             Group.Trigger 2; Group.Complete 2 None;
             Group.Trigger 3; Group.Complete 3 None;
             Group.Resume 0; Group.Resume 1; Group.Resume 2; Group.Resume 3;
             Group.Wait] in
  Group.waited (Group.run (AtlassianLoginHandler_locators 1) tr) = None
  ∧ ∀ rest,
      Group.waited (Group.run (AtlassianLoginHandler_locators 1) (tr ++ rest))
      ≠ Some None.
Proof.
  split; [by vm_compute|].
  intros rest. by apply Group_waited_error.
Qed.

(** C4 for the error of [ResolveCredentials]. *)
Lemma C4_group_error_is_lost_witness :
  Group.waited
    (Group.run (AtlassianLoginHandler_locators 1)
       [Group.Enter 0 None None; Group.Enter 1 None None;
        Group.Enter 2 None None; Group.Enter 3 None None;
        Group.Trigger 0; Group.Complete 0 None;
        Group.Trigger 3; Group.Complete 3 None;
        Group.Trigger 2; Group.Complete 2 None;
        Group.Trigger 1;
        Group.Complete 1 (Some (errorString "no credentials specified"));
        Group.Resume 1; Group.Resume 0; Group.Resume 2; Group.Resume 3;
        Group.Wait])
  = Some (Some context.Canceled).
Proof.
  refine (proj1 (C4_group_error_is_lost (errorString "no credentials specified") _)).
  discriminate.
Defined.

(** C7 on the code: in the scripted browser the banner reads "Invalid
    username or password"; the callback of the login form fails with an
    error that has this text, and [JiraLoginHandler.Run] returns
    [Canceled], which has not. *)
Theorem C7_login_error_text_is_lost :
  let text := "Invalid username or password" in
  let r := returned_error
             (JiraLoginHandler_cb Scripted.handler Scripted.jiraPage
                (scope Group.group_ctx (Group.scope_id 0)) Scripted.form
                (inl text)) in
  let s := Group.run (JiraLoginHandler_locators Scripted.jiraPage)
             [Group.Enter 0 None None; Group.Trigger 0; Group.Complete 0 r;
              Group.Resume 0; Group.Wait] in
  r = Some (errorString "login error: Invalid username or password")
  ∧ (∃ e, r = Some e ∧ strings_Contains (errors.Error e) text = true)
  ∧ Group.waited s = Some (Some context.Canceled)
  ∧ strings_Contains (errors.Error context.Canceled) text = false.
Proof.
  split_and!; [by vm_compute | | by vm_compute | by vm_compute].
  eexists. split; by vm_compute.
Qed.

(** ** The Atlassian page *)

Section Main_spec.

Context {World : Type} `{!Driver World}.

Lemma Main_inv_step (s : main_state) (ev : main_event) :
  Main_inv s → Main_inv (main_step s ev).
Proof.
  unfold Main_inv, logins. destruct s as [[w g n] c a]. simpl.
  destruct ev as [|f]; simpl; [|done].
  destruct c as [r|]; simpl.
  - intros (Hn & Hl & Ha). split_and!; try done.
    apply Forall_app. split; [done|]. by constructor.
  - intros (-> & -> & ->). unfold newAtlassianPage. simpl.
    destruct (playwright.NewPage w) as [w' [page|err]]; simpl;
      split_and!; try done; try lia; by repeat constructor.
Qed.

Lemma Main_inv_run (w : World) (tr : list main_event) : Main_inv (main_run w tr).
Proof.
  apply (fold_left_invariant Main_inv (fun _ => true)).
  - intros s ev _. apply Main_inv_step.
  - apply forallb_any.
  - done.
Qed.

(** C8: whatever the calls of [resolveAtlassianPage] and whatever
    happens between them, the page is made at most once, the login
    handler is started at most once, and every call answers what the
    first call answered. *)
Theorem C8_resolveAtlassianPage_once (w : World) (tr : list main_event) :
  let s := main_run w tr in
  (pages_created (orchestrator s) ≤ 1)%nat
  ∧ (logins s ≤ 1)%nat
  ∧ Forall (fun r => head (answers s) = Some r) (answers s).
Proof.
  pose proof (Main_inv_run w tr) as Hinv. unfold Main_inv in Hinv. simpl.
  destruct (cell (main_run w tr)) as [r|].
  - destruct Hinv as (-> & Hl & Ha). split_and!; [lia | done |].
    destruct (answers (main_run w tr)) as [|r0 a]; [constructor|].
    simpl. assert (r = r0) as -> by (by inversion Ha).
    eapply Forall_impl; [exact Ha|]. by intros r' <-.
  - destruct Hinv as (-> & Hg & ->). unfold logins. rewrite Hg. simpl.
    split_and!; [lia | lia | constructor].
Qed.

End Main_spec.

(** * More of the code *)

(** ** Errors that wrap errors *)

Lemma error_eqb_refl (e : error) : errors.error_eqb e e = true.
Proof.
  induction e as [name msg|msg|msg errs IH|errs IH] using error_induction; simpl.
  - by rewrite !String.eqb_refl.
  - apply String.eqb_refl.
  - rewrite String.eqb_refl. simpl.
    induction IH as [|x l Hx _ IHl]; [done|]. by rewrite Hx, IHl.
  - induction IH as [|x l Hx _ IHl]; [done|]. by rewrite Hx, IHl.
Qed.

(** [errors.Is(err, err)]. *)
Lemma Is_refl (e : error) : errors.Is e e = true.
Proof. destruct e; cbn [errors.Is]; by rewrite error_eqb_refl. Qed.

(** An error is found in what [fmt.Errorf] makes of it with a wrapping
    verb. *)
Lemma Is_Errorf_w (prefix : string) (e : error) :
  errors.Is (errors.Errorf_w prefix e) e = true.
Proof.
  unfold errors.Errorf_w. cbn [errors.Is existsb]. rewrite Is_refl. simpl.
  apply orb_true_r.
Qed.

(** An error is found in a join that has it. *)
Lemma Is_joinError (errs : list error) (e : error) :
  e ∈ errs → errors.Is (joinError errs) e = true.
Proof.
  intros He. cbn [errors.Is]. apply orb_true_iff. right.
  apply existsb_exists. exists e. split; [by apply list_elem_of_In | apply Is_refl].
Qed.

(** ** Sequences of calls *)

Section M_spec.

Context {World A B : Type}.

Lemma bind_inl (m : M World A) (k : A → M World B) w w' b :
  playwright.bind m k w = (w', inl b) →
  ∃ w1 a, m w = (w1, inl a) ∧ k a w1 = (w', inl b).
Proof.
  unfold playwright.bind. destruct (m w) as [w1 [a|err]]; [eauto | done].
Qed.


Lemma bind_step (m : M World A) (k : A → M World B) w w1 a :
  m w = (w1, inl a) → playwright.bind m k w = k a w1.
Proof. unfold playwright.bind. by intros ->. Qed.

Lemma bind_stop (m : M World A) (k : A → M World B) w w1 err :
  m w = (w1, inr err) → playwright.bind m k w = (w1, inr err).
Proof. unfold playwright.bind. by intros ->. Qed.

Lemma wrapped_inl prefix (m : M World A) w w' a :
  wrapped prefix m w = (w', inl a) → m w = (w', inl a).
Proof. unfold wrapped. destruct (m w) as [w1 [a'|err]]; [|done]. by intros [= <- <-]. Qed.


End M_spec.

Lemma unless_timeout_inr {World : Type} (m : M World ()) w w' err :
  unless_timeout m w = (w', inr err) →
  m w = (w', inr err) ∧ errors.Is err playwright.ErrTimeout = false.
Proof.
  unfold unless_timeout. destruct (m w) as [w1 [[]|cause]]; [done|].
  destruct (errors.Is cause playwright.ErrTimeout) eqn:Htimeout; [done|].
  by intros [= <- <-].
Qed.

(** ** Strings without a character *)

Lemma occurs_append (c : Ascii.ascii) (s t : string) :
  occurs c (s +:+ t) = occurs c s || occurs c t.
Proof.
  induction s as [|c' s IH]; simpl; [done|]. by rewrite IH, orb_assoc.
Qed.

Lemma occurs_ReplaceAll (s : string) (old : Ascii.ascii) (new : string) :
  occurs old new = false → occurs old (strings_ReplaceAll s old new) = false.
Proof.
  intros Hnew. induction s as [|c s IH]; simpl; [done|].
  destruct (Ascii.eqb c old) eqn:Hc; simpl.
  - by rewrite occurs_append, Hnew, IH.
  - by rewrite Hc, IH.
Qed.

Lemma ReplaceAll_without (s : string) (old : Ascii.ascii) (new : string) :
  occurs old s = false → strings_ReplaceAll s old new = s.
Proof.
  induction s as [|c s IH]; simpl; [done|].
  intros [Hc Hs]%orb_false_elim. rewrite Hc. by rewrite IH.
Qed.

(** ** GetLicenseKey *)

Section GetLicenseKey_spec.

Context {World : Type} `{!Driver World} `{!Browser World}.
Context (ctx : Context) (page : Page) (params : GetLicenseKeyParams).

(** X1: the license key that [GetLicenseKey] returns has no newline, and
    is the text of the textarea when that text has none. *)
Theorem X1_GetLicenseKey_no_newline (w w' : World) (licenseKey : string) :
  GetLicenseKey ctx page params w = (w', inl licenseKey) →
  occurs newline licenseKey = false
  ∧ ∃ w1 text,
      InputValue (page_Locator page (license_textarea_selector
                                       match url_Parse (Page_URL page w1) with
                                       | inl url => Fragment url
                                       | inr _ => ""
                                       end)) w1 = (w', inl text)
      ∧ licenseKey = strings_ReplaceAll text newline ""
      ∧ (occurs newline text = false → licenseKey = text).
Proof.
  unfold GetLicenseKey. intros H.
  do 12 (apply bind_inl in H as (? & ? & _ & H)).
  apply bind_inl in H as (w1 & url & Hurl & H).
  apply bind_inl in H as (w2 & text & Htext & H).
  apply wrapped_inl in Hurl, Htext.
  injection Hurl as Hw Hurl. subst w1.
  injection H as <- <-.
  split; [by apply occurs_ReplaceAll|].
  eexists _, text. split_and!; [by rewrite Hurl | done |].
  apply ReplaceAll_without.
Qed.


End GetLicenseKey_spec.

(** X1 on the scripted site of Atlassian. *)
Lemma X1_GetLicenseKey_no_newline_witness :
  occurs newline "AAABCCCD" = false.
Proof.
  refine (proj1 (X1_GetLicenseKey_no_newline Background Script.jiraPage
                   {| ServerID := "B0AB-CDEF" |} Script.evaluation [] "AAABCCCD" _)).
  reflexivity.
Defined.


Lemma wrapped_step {World A : Type} prefix (m : M World A) w w1 a :
  m w = (w1, inl a) → wrapped prefix m w = (w1, inl a).
Proof. unfold wrapped. by intros ->. Qed.

Lemma wrapped_stop {World A : Type} prefix (m : M World A) w w1 err :
  m w = (w1, inr err) → wrapped prefix m w = (w1, inr (errors.Errorf_w prefix err)).
Proof. unfold wrapped. by intros ->. Qed.

(** ** The license of an instance *)

Section License_spec.

Context {World : Type} `{!Driver World} `{!Browser World}.
Context {Time : Type} (zeroTime : Time).
Context (time_Parse : string → string → Time + error).
Context (ctx : Context) (page : Page).

(** X3: when [UpdateJiraLicenseKey] has submitted the key and the click on
    the Finish button of the dialog fails, a timeout of that click is
    passed over and the function goes on to wait for the textarea to be
    hidden; any other error of the click is returned as it is, and the
    function does not wait. *)
Theorem X3_UpdateJiraLicenseKey_finish (params : UpdateJiraLicenseKeyParams)
    (w w1 w2 w3 w4 w5 : World) (err : error) :
  let appLocator :=
    page_Locator page
      (application_selector (default_applicationKey (Update_ApplicationKey params))) in
  let textarea := Locator_Locator appLocator "textarea.license-update-textarea" in
  Goto page (Update_BaseURL params +:+ "/plugins/servlet/applications/versions-licenses") w
    = (w1, inl ()) →
  playwright.Click
    (Locator_Locator appLocator ("//*[@class=" +:+ dq +:+ "update-license-key" +:+ dq +:+ "]"))
    None w1 = (w2, inl ()) →
  playwright.Fill textarea (Update_LicenseKey params) w2 = (w3, inl ()) →
  playwright.Click (Locator_Locator appLocator ".license-update-submit") None w3
    = (w4, inl ()) →
  playwright.Click (page_Locator page finish_button_selector) None w4 = (w5, inr err) →
  UpdateJiraLicenseKey ctx page params w =
    if errors.Is err playwright.ErrTimeout
    then (playwright.WaitFor textarea playwright.Hidden >> playwright.ret ()) w5
    else (w5, inr err).
Proof.
  intros appLocator textarea Hgoto Hupdate Hfill Hsubmit Hfinish.
  unfold UpdateJiraLicenseKey.
  rewrite (bind_step _ _ _ _ _ (wrapped_step _ _ _ _ _ Hgoto)).
  rewrite (bind_step _ _ _ _ _ Hupdate).
  rewrite (bind_step _ _ _ _ _ Hfill).
  rewrite (bind_step _ _ _ _ _ Hsubmit).
  unfold playwright.bind at 1, unless_timeout. rewrite Hfinish.
  by destruct (errors.Is err playwright.ErrTimeout).
Qed.

Lemma ResolveLicenseDetails_field_spec result name value result' :
  ResolveLicenseDetails_field zeroTime time_Parse result name value = inl result' →
  SEN result' = (if String.eqb name "Support entitlement number (SEN)"
                 then value else SEN result)
  ∧ LicenseType result' = (if String.eqb name "License type"
                           then value else LicenseType result)
  ∧ OrganisationName result' = (if String.eqb name "Organisation name"
                                then value else OrganisationName result)
  ∧ LicenseKey result' = (if String.eqb name "License key"
                          then value else LicenseKey result)
  ∧ (TrialExpiresAt result' = None ↔
     String.eqb name "Trial expires" = false ∧ TrialExpiresAt result = None).
Proof.
  unfold ResolveLicenseDetails_field.
  destruct (String.eqb name "Trial expires") eqn:H1.
  { apply String.eqb_eq in H1 as ->.
    destruct (TimeParseAny _ _ _ value) as [date [err|]]; [done|].
    intros [= <-]. simpl. split_and!; try done. split; [done | by intros [? _]]. }
  destruct (String.eqb name "Support entitlement number (SEN)") eqn:H2.
  { apply String.eqb_eq in H2 as ->. intros [= <-]. simpl.
    split_and!; try done. split; [by split | by intros [_ ?]]. }
  destruct (String.eqb name "License type") eqn:H3.
  { apply String.eqb_eq in H3 as ->. intros [= <-]. simpl.
    split_and!; try done. split; [by split | by intros [_ ?]]. }
  destruct (String.eqb name "Organisation name") eqn:H4.
  { apply String.eqb_eq in H4 as ->. intros [= <-]. simpl.
    split_and!; try done. split; [by split | by intros [_ ?]]. }
  destruct (String.eqb name "License key") eqn:H5.
  { apply String.eqb_eq in H5 as ->. intros [= <-]. simpl.
    split_and!; try done. split; [by split | by intros [_ ?]]. }
  intros [= <-]. split_and!; try done. split; [by split | by intros [_ ?]].
Qed.

Lemma set_fields_spec fields : ∀ result result',
  set_fields zeroTime time_Parse result fields = inl result' →
  SEN result' = last_value "Support entitlement number (SEN)" (SEN result) fields
  ∧ LicenseType result' = last_value "License type" (LicenseType result) fields
  ∧ OrganisationName result' = last_value "Organisation name" (OrganisationName result) fields
  ∧ LicenseKey result' = last_value "License key" (LicenseKey result) fields
  ∧ (TrialExpiresAt result' = None ↔
     has_field "Trial expires" fields = false ∧ TrialExpiresAt result = None).
Proof.
  induction fields as [|[name value] fields IH]; intros result result'; simpl.
  - intros [= <-]. split_and!; try done. split; [by split | by intros [_ ?]].
  - destruct (ResolveLicenseDetails_field zeroTime time_Parse result name value)
      as [result1|err] eqn:Hfield; [|done].
    intros Hset. apply IH in Hset as (-> & -> & -> & -> & Htrial).
    apply ResolveLicenseDetails_field_spec in Hfield as (-> & -> & -> & -> & Htrial1).
    unfold last_value. simpl. split_and!; try done.
    rewrite Htrial, Htrial1, orb_false_iff. tauto.
Qed.

(** The loop reads the fields and sets them. *)
Lemma ResolveLicenseDetails_loop_inl detailFields : ∀ result w w' result',
  ResolveLicenseDetails_loop zeroTime time_Parse detailFields result w = (w', inl result') →
  ∃ fields,
    read_fields detailFields w = (w', inl fields)
    ∧ set_fields zeroTime time_Parse result fields = inl result'.
Proof.
  induction detailFields as [|item detailFields IH]; intros result w w' result'; simpl.
  - intros [= <- <-]. by exists [].
  - intros H.
    apply bind_inl in H as (w1 & name & Hname & H).
    apply bind_inl in H as (w2 & value & Hvalue & H).
    destruct (ResolveLicenseDetails_field zeroTime time_Parse result name value)
      as [result1|err] eqn:Hfield; [|done].
    apply IH in H as (fields & Hread & Hset).
    exists ((name, value) :: fields). simpl. rewrite Hfield. split; [|done].
    rewrite (bind_step _ _ _ _ _ Hname), (bind_step _ _ _ _ _ Hvalue).
    by rewrite (bind_step _ _ _ _ _ Hread).
Qed.

(** X4: when [ResolveLicenseDetails] succeeds, each text of its result is
    the value of the last detail field of the page that has the name of
    that text, and is empty when no field has; fields of other names count
    for nothing; and [TrialExpiresAt] is nil exactly when no field is named
    "Trial expires". *)
Theorem X4_ResolveLicenseDetails_fields (params : ResolveLicenseDetailsParams)
    (w w' : World) (result : ResolveLicenseDetailsResult) :
  ResolveLicenseDetails zeroTime time_Parse ctx page params w = (w', inl result) →
  ∃ w1 w2 detailFields fields,
    All (Locator_Locator
           (page_Locator page
              (application_selector (default_applicationKey (Details_ApplicationKey params))))
           ".license-detail-field") w1 = (w2, inl detailFields)
    ∧ read_fields detailFields w2 = (w', inl fields)
    ∧ SEN result = last_value "Support entitlement number (SEN)" "" fields
    ∧ LicenseType result = last_value "License type" "" fields
    ∧ OrganisationName result = last_value "Organisation name" "" fields
    ∧ LicenseKey result = last_value "License key" "" fields
    ∧ (TrialExpiresAt result = None ↔ has_field "Trial expires" fields = false).
Proof.
  unfold ResolveLicenseDetails. intros H.
  apply bind_inl in H as (w0 & [] & _ & H).
  apply bind_inl in H as (w1 & [] & _ & H).
  apply bind_inl in H as (w2 & detailFields & Hall & H).
  apply ResolveLicenseDetails_loop_inl in H as (fields & Hread & Hset).
  apply set_fields_spec in Hset as (HSEN & Htype & Horg & Hkey & Htrial).
  exists w1, w2, detailFields, fields. split_and!; try done.
  rewrite Htrial. simpl. split; [by intros [? _] | done].
Qed.

(** A field that is not set stops the loop. *)
Lemma ResolveLicenseDetails_loop_inr detailFields : ∀ result w w' fields,
  read_fields detailFields w = (w', inl fields) →
  (∃ err, set_fields zeroTime time_Parse result fields = inr err) →
  ∃ w1 err,
    ResolveLicenseDetails_loop zeroTime time_Parse detailFields result w = (w1, inr err).
Proof.
  induction detailFields as [|item detailFields IH]; intros result w w' fields; simpl.
  - intros [= <- <-]. by intros [err ?].
  - intros H.
    apply bind_inl in H as (w1 & name & Hname & H).
    apply bind_inl in H as (w2 & value & Hvalue & H).
    apply bind_inl in H as (w3 & fields' & Hread & H).
    injection H as <- <-. simpl.
    rewrite (bind_step _ _ _ _ _ Hname), (bind_step _ _ _ _ _ Hvalue).
    destruct (ResolveLicenseDetails_field zeroTime time_Parse result name value)
      as [result1|err] eqn:Hfield; [|by eexists _, _].
    by apply (IH result1 w2 w3 fields').
Qed.

End License_spec.

Section Trial_spec.

Context {World : Type} `{!Driver World} `{!Browser World}.
Context {Time : Type} (zeroTime : Time).
Context (time_Parse : string → string → Time + error).
Context `{!Clock World Time}.
Context (ctx : Context) (page : Page).

Lemma ResolveLicenseDetails_field_trial result value :
  Forall (fails time_Parse value) ["02/Jan/06"; "2 Jan 2006"] →
  ∃ err, ResolveLicenseDetails_field zeroTime time_Parse result "Trial expires" value
         = inr err.
Proof.
  intros Hfails. unfold ResolveLicenseDetails_field, TimeParseAny. simpl String.eqb.
  cbv iota. rewrite (TimeParseAny_loop_fails zeroTime time_Parse [] _ _ Hfails).
  pose proof (parse_errors_length time_Parse _ _ Hfails) as Hlen.
  destruct (parse_errors time_Parse _ value) as [|e errs]; [done|].
  simpl. by eexists.
Qed.

Lemma set_fields_trial fields value : ∀ result,
  ("Trial expires", value) ∈ fields →
  Forall (fails time_Parse value) ["02/Jan/06"; "2 Jan 2006"] →
  ∃ err, set_fields zeroTime time_Parse result fields = inr err.
Proof.
  intros result Hin Hfails. revert result.
  induction fields as [|[name value'] fields IH]; intros result; [by inversion Hin|].
  simpl.
  destruct (ResolveLicenseDetails_field zeroTime time_Parse result name value')
    as [result1|err] eqn:Hfield; [|by eexists].
  apply elem_of_cons in Hin as [[= <- <-]|Hin].
  - destruct (ResolveLicenseDetails_field_trial result value Hfails) as [err Herr].
    congruence.
  - by apply IH.
Qed.

(** X5: when the detail fields can all be read and one of them is named
    "Trial expires" with a value that neither layout parses, the loop of
    [ResolveLicenseDetails] fails, whatever the other fields are. *)
Theorem X5_ResolveLicenseDetails_bad_trial (detailFields : list Locator)
    (result : ResolveLicenseDetailsResult) (w w' : World)
    (fields : list (string * string)) (value : string) :
  read_fields detailFields w = (w', inl fields) →
  ("Trial expires", value) ∈ fields →
  Forall (fails time_Parse value) ["02/Jan/06"; "2 Jan 2006"] →
  ∃ w1 err,
    ResolveLicenseDetails_loop zeroTime time_Parse detailFields result w = (w1, inr err).
Proof.
  intros Hread Hin Hfails.
  apply (ResolveLicenseDetails_loop_inr zeroTime time_Parse _ _ _ _ _ Hread).
  by eapply set_fields_trial.
Qed.

Context (instance : JiraInstance).
Context (getLicenseKey : Context → string → M World string).

(** X6: when the license of the instance has a trial that does not expire
    before seven days from now, [processInstance] returns nil once it has
    the details of the license: it asks for no server id and no license
    key, and updates nothing. *)
Theorem X6_processInstance_skips (w w1 : World)
    (licenseDetails : ResolveLicenseDetailsResult) (trialExpiresAt : Time) :
  ResolveLicenseDetails zeroTime time_Parse ctx page
    {| Details_BaseURL := BaseURL instance; Details_ApplicationKey := "" |} w
    = (w1, inl licenseDetails) →
  TrialExpiresAt licenseDetails = Some trialExpiresAt →
  Before trialExpiresAt (AddDate (Now w1) 0 0 7) = false →
  processInstance zeroTime time_Parse ctx page instance getLicenseKey w = (w1, inl ()).
Proof.
  intros Hdetails Htrial Hbefore. unfold processInstance.
  rewrite (bind_step _ _ _ _ _ (wrapped_step _ _ _ _ _ Hdetails)).
  unfold enough_trial_left. by rewrite Htrial, Hbefore.
Qed.

(** X7: when the license has no trial or one that expires within seven
    days, and the server id was read, an error of [getLicenseKey] is what
    [processInstance] returns, under the name of the step:
    [errors.Is] finds it there, and nothing is updated. *)
Theorem X7_processInstance_keeps_cause (w w1 w2 w3 : World)
    (licenseDetails : ResolveLicenseDetailsResult) (serverID : string) (cause : error) :
  ResolveLicenseDetails zeroTime time_Parse ctx page
    {| Details_BaseURL := BaseURL instance; Details_ApplicationKey := "" |} w
    = (w1, inl licenseDetails) →
  enough_trial_left licenseDetails w1 = false →
  ResolveServerID ctx page {| ServerID_BaseURL := BaseURL instance |} w1
    = (w2, inl serverID) →
  getLicenseKey ctx serverID w2 = (w3, inr cause) →
  ∃ err,
    processInstance zeroTime time_Parse ctx page instance getLicenseKey w = (w3, inr err)
    ∧ errors.Is err cause = true
    ∧ errors.Error err = "resolving license key: " +:+ errors.Error cause.
Proof.
  intros Hdetails Htrial Hid Hkey. unfold processInstance.
  rewrite (bind_step _ _ _ _ _ (wrapped_step _ _ _ _ _ Hdetails)).
  rewrite Htrial.
  rewrite (bind_step _ _ _ _ _ (wrapped_step _ _ _ _ _ Hid)).
  rewrite (bind_stop _ _ _ _ _ (wrapped_stop _ _ _ _ _ Hkey)).
  eexists. split_and!; [done | apply Is_Errorf_w | done].
Qed.

End Trial_spec.

(** ** Reactions without credentials *)

(** X8: for an account without plain credentials, the Reactions of the
    Jira login, of the sudo prompt and of the username and the password of
    Atlassian, with the resolvers of main.go, fail with the error "no
    credentials specified" and make no call on the page. *)
Theorem X8_Reactions_without_credentials {World : Type} `{!Driver World}
    (otp : Context → M World string) (rememberMe : bool)
    (page : Page) (ctx : Context) (locator : Locator) (w : World) :
  let account := {| config.Plain := None |} in
  let atlassian :=
    {| UsernameResolver := instance_UsernameResolver account;
       PasswordResolver := instance_PasswordResolver account;
       OTPCodeResolver := otp |} in
  let missing := (w, inr (errorString "no credentials specified")) in
  JiraLoginHandler_cb
    {| CredentialsResolver := instance_CredentialsResolver account;
       RememberMe := rememberMe |} page ctx locator w = missing
  ∧ JiraSudoHandler_cb
      {| Sudo_PasswordResolver := instance_PasswordResolver account |} ctx locator w
    = missing
  ∧ AtlassianLoginHandler_username_cb atlassian page ctx locator w = missing
  ∧ AtlassianLoginHandler_password_cb atlassian page ctx locator w = missing.
Proof. by split_and!. Qed.

(** X3 on a scripted site whose Finish button never shows. *)
Lemma X3_UpdateJiraLicenseKey_finish_witness :
  UpdateJiraLicenseKey Background Script.jiraPage
    {| Update_BaseURL := "https://jira.example.org"; Update_ApplicationKey := "";
       Update_LicenseKey := "AAABCCCD" |}
    [Script.Ok; Script.Ok; Script.Ok; Script.Ok; Script.Failure Script.timeout; Script.Ok]
  = ([], inl ()).
Proof.
  refine (eq_trans
            (X3_UpdateJiraLicenseKey_finish Background Script.jiraPage _
               _ [Script.Ok; Script.Ok; Script.Ok; Script.Failure Script.timeout; Script.Ok]
               [Script.Ok; Script.Ok; Script.Failure Script.timeout; Script.Ok]
               [Script.Ok; Script.Failure Script.timeout; Script.Ok]
               [Script.Failure Script.timeout; Script.Ok]
               [Script.Ok] Script.timeout _ _ _ _ _) _);
    reflexivity.
Defined.

(** X5 on a scripted page with a trial that expires "soon". *)
Lemma X5_ResolveLicenseDetails_bad_trial_witness :
  ∃ w1 err,
    ResolveLicenseDetails_loop 0%Z Script.time_Parse
      [page_Locator Script.jiraPage "first"; page_Locator Script.jiraPage "second"]
      no_details
      [Script.Text "License type"; Script.Text "Trial";
       Script.Text "Trial expires"; Script.Text "soon"]
    = (w1, inr err).
Proof.
  refine (X5_ResolveLicenseDetails_bad_trial 0%Z Script.time_Parse _ _ _ []
            [("License type", "Trial"); ("Trial expires", "soon")] "soon" _ _ _).
  - reflexivity.
  - set_solver.
  - repeat constructor; by eexists.
Defined.

(** X6 on a scripted instance whose trial expires in thirty days. *)
Lemma X6_processInstance_skips_witness :
  processInstance 0%Z Script.time_Parse Background Script.jiraPage Script.instance
    (fun _ _ => fail context.Canceled)
    [Script.Ok; Script.Ok; Script.Items 1;
     Script.Text "Trial expires"; Script.Text "day 30"]
  = ([], inl ()).
Proof.
  refine (X6_processInstance_skips 0%Z Script.time_Parse Background Script.jiraPage
            Script.instance _ _ []
            {| TrialExpiresAt := Some 30%Z; SEN := ""; LicenseType := "";
               OrganisationName := ""; LicenseKey := "" |} 30%Z _ _ _);
    reflexivity.
Defined.

(** X7 on a scripted instance whose trial expires in three days, when the
    license key cannot be had. *)
Lemma X7_processInstance_keeps_cause_witness :
  ∃ err,
    processInstance 0%Z Script.time_Parse Background Script.jiraPage Script.instance
      (fun _ _ => fail context.Canceled)
      [Script.Ok; Script.Ok; Script.Items 1;
       Script.Text "Trial expires"; Script.Text "day 3";
       Script.Ok; Script.Ok; Script.Text "B0AB-CDEF"]
    = ([], inr err)
    ∧ errors.Is err context.Canceled = true.
Proof.
  destruct (X7_processInstance_keeps_cause 0%Z Script.time_Parse Background
              Script.jiraPage Script.instance (fun _ _ => fail context.Canceled)
              [Script.Ok; Script.Ok; Script.Items 1;
               Script.Text "Trial expires"; Script.Text "day 3";
               Script.Ok; Script.Ok; Script.Text "B0AB-CDEF"]
              [Script.Ok; Script.Ok; Script.Text "B0AB-CDEF"] [] []
              {| TrialExpiresAt := Some 3%Z; SEN := ""; LicenseType := "";
                 OrganisationName := ""; LicenseKey := "" |}
              "B0AB-CDEF" context.Canceled)
    as (err & Herr & His & _); [reflexivity..|].
  by exists err.
Defined.

(** X4 on a scripted page that names the license type twice. *)
Lemma X4_ResolveLicenseDetails_fields_witness :
  ∃ fields, "Evaluation" = last_value "License type" "" fields.
Proof.
  destruct (X4_ResolveLicenseDetails_fields 0%Z Script.time_Parse Background
              Script.jiraPage
              {| Details_BaseURL := "https://jira.example.org";
                 Details_ApplicationKey := "" |}
              [Script.Ok; Script.Ok; Script.Items 3;
               Script.Text "License type"; Script.Text "Trial";
               Script.Text "Colour"; Script.Text "blue";
               Script.Text "License type"; Script.Text "Evaluation"]
              []
              {| TrialExpiresAt := None; SEN := ""; LicenseType := "Evaluation";
                 OrganisationName := ""; LicenseKey := "" |})
    as (_ & _ & _ & fields & _ & _ & _ & Htype & _); [reflexivity|].
  by exists fields.
Defined.

(** ** More on one call of RunPageLocator *)

Lemma Done_cancel_child (id pid : nat) (grandparent : Context) e c σ :
  context.Done (context.cancel (cancelCtx pid grandparent) e c σ)
    (cancelCtx id (cancelCtx pid grandparent)) = true.
Proof.
  apply bool_decide_eq_true. unfold context.cancel.
  set (parent := cancelCtx pid grandparent).
  destruct (context.state σ parent) as [x|] eqn:Hparent.
  - change (context.state σ (cancelCtx id parent))
      with (match σ !! id with Some c => Some c | None => context.state σ parent end).
    rewrite Hparent. by destruct (σ !! id).
  - change (is_Some (match <[pid:={| context.err := e; context.cause := c |}]> σ !! id with
                     | Some c => Some c
                     | None =>
                         match <[pid:={| context.err := e; context.cause := c |}]> σ !! pid with
                         | Some c => Some c
                         | None => context.state
                                     (<[pid:={| context.err := e; context.cause := c |}]> σ)
                                     grandparent
                         end
                     end)).
    rewrite lookup_insert_eq. by destruct (_ !! id).
Qed.

(** A cancellation of a context or of its parent leaves the state of a
    cancelled context as it is. *)
Lemma state_cancel_stable (id pid : nat) (grandparent ctx' : Context) e c σ x :
  id ≠ pid →
  ctx' = cancelCtx id (cancelCtx pid grandparent) ∨ ctx' = cancelCtx pid grandparent →
  context.state σ (cancelCtx id (cancelCtx pid grandparent)) = Some x →
  context.state (context.cancel ctx' e c σ) (cancelCtx id (cancelCtx pid grandparent))
  = Some x.
Proof.
  intros Hne [->| ->] Hx.
  - unfold context.cancel. by rewrite Hx.
  - unfold context.cancel.
    destruct (context.state σ (cancelCtx pid grandparent)) as [y|] eqn:Hparent; [done|].
    change (context.state σ (cancelCtx id (cancelCtx pid grandparent)))
      with (match σ !! id with
            | Some c => Some c
            | None => context.state σ (cancelCtx pid grandparent)
            end) in Hx.
    rewrite Hparent in Hx. destruct (σ !! id) as [z|] eqn:Hid; [|done].
    injection Hx as ->. simpl. by rewrite lookup_insert_ne, Hid.
Qed.

Section Watch_more.

Import Watch.
Context (locator : Locator).

(** X9: when [locator.Page()] or [page.AddLocatorHandler] fails,
    [RunPageLocator] returns that error at once; whatever happens later,
    the page has no handler of the call and the callback never runs. *)
Theorem X9_RunPageLocator_registration_fails
    (page_err add_err : option error) (err : error) (tr : list event) :
  match page_err with Some e => Some e | None => add_err end = Some err →
  let s := run locator (Enter page_err add_err :: tr) in
  result s = Some (Some err)
  ∧ locatorHandlers (env s) = []
  ∧ running s = 0.
Proof.
  intros Herr.
  set (P := fun s : state =>
              pc s = Returned (Some err) ∧ locatorHandlers (env s) = [] ∧ running s = 0).
  assert (P (run locator (Enter page_err add_err :: tr))) as (Hpc & Hhs & Hn).
  { unfold run. simpl fold_left.
    apply (fold_left_invariant P (fun _ => true)); [|apply forallb_any|].
    - intros [[σ hs] p n] ev _ (Hpc & Hhs & Hn). simpl in *. subst p hs n.
      by destruct ev.
    - unfold P. destruct page_err as [e|], add_err as [e'|];
        simpl in *; by simplify_eq. }
  unfold result. simpl. by rewrite Hpc.
Qed.

(** X10: once [RunPageLocator] has returned, nothing changes what it
    returned, its handler never comes back to the page, and no callback
    starts. *)
Theorem X10_RunPageLocator_returned_for_good (tr tr' : list event) (r : option error) :
  result (run locator tr) = Some r →
  let s := run locator (tr ++ tr') in
  result s = Some r
  ∧ handler_registered locator s = false
  ∧ (running s ≤ running (run locator tr))%nat.
Proof.
  intros Hr.
  destruct (Watch_result_error locator tr r Hr) as [_ Hreg].
  set (P := fun s : state =>
              pc s = Returned r ∧ handler_registered locator s = false
              ∧ (running s ≤ running (run locator tr))%nat).
  assert (P (run locator (tr ++ tr'))) as (Hpc & Hreg' & Hn).
  { unfold run. rewrite fold_left_app.
    apply (fold_left_invariant P (fun _ => true)); [|apply forallb_any|].
    - intros [[σ hs] p n] ev _ (Hpc & Hhs & Hn). unfold P, handler_registered in *.
      simpl in *. subst p.
      destruct ev as [? ?| |[e|]| | |]; simpl; try done.
      + by rewrite Hhs.
      + destruct n; simpl; [done|]. split_and!; [done | done | lia].
      + destruct n; simpl; [done|]. split_and!; [done | done | lia].
    - unfold P. split_and!; [|done|done].
      unfold result in Hr. fold (run locator tr).
      destruct (pc (run locator tr)); by simplify_eq. }
  unfold result. simpl. by rewrite Hpc.
Qed.

(** X11: once the handler is registered, whatever has happened since, the
    call returns at its next wake-up after the caller has cancelled its
    context or the deadline of that context has passed; it returns an
    error, and its handler is off the page. *)
Theorem X11_RunPageLocator_cancellation_unblocks (tr : list event) (ev : event) :
  ev = Cancel ∨ ev = Deadline →
  let s := run locator (Enter None None :: tr ++ [ev; Resume]) in
  ∃ err, result s = Some (Some err) ∧ handler_registered locator s = false.
Proof.
  intros Hev.
  set (trace := Enter None None :: tr ++ [ev; Resume]).
  assert (result (run locator trace) ≠ None) as Hreturned.
  { set (P := fun s : state => pc s ≠ Entering).
    assert (P (run locator (Enter None None :: tr))) as Hpc.
    { unfold run. simpl fold_left.
      apply (fold_left_invariant P (fun _ => true)); [|apply forallb_any|done].
      intros [[σ hs] p n] e _ Hp. unfold P in *. simpl in *.
      destruct e as [pe ae| |?| | |]; simpl; try done.
      - by destruct p.
      - by destruct (playwright.registered _ _ _).
      - by destruct n.
      - destruct p; try done.
        by destruct (RunPageLocator_leave _ _ _ _) as [[? ?]|]. }
    unfold trace, run. rewrite app_comm_cons, fold_left_app.
    fold (run locator (Enter None None :: tr)).
    destruct (run locator (Enter None None :: tr)) as [[σ hs] p n].
    unfold P in Hpc. simpl in Hpc.
    destruct p as [| |r]; [done| |by destruct Hev as [->| ->]].
    destruct Hev as [->| ->];
      cbn -[context.Done context.Err context.CancelFunc context.deadline];
      unfold RunPageLocator_leave; cbn [ctxs];
      unfold context.CancelFunc, context.deadline, caller_ctx, scope;
      by rewrite Done_cancel_child. }
  destruct (result (run locator trace)) as [r|] eqn:Hr; [|done].
  destruct (Watch_result_error locator trace r Hr) as [[err ->] Hreg].
  by exists err.
Qed.

(** X12: the cause of the wait scope is set once: after the first
    callback that fails, or the first cancellation of the caller, nothing
    that happens changes it. *)
Theorem X12_RunPageLocator_first_cause_wins (tr tr' : list event) (c : error) :
  context.Cause (ctxs (env (run locator tr))) (scope caller_ctx scope_id) = Some c →
  context.Cause (ctxs (env (run locator (tr ++ tr')))) (scope caller_ctx scope_id)
  = Some c.
Proof.
  unfold context.Cause.
  destruct (context.state (ctxs (env (run locator tr))) (scope caller_ctx scope_id))
    as [x|] eqn:Hx; [|done].
  intros [= <-].
  set (P := fun s : state =>
              context.state (ctxs (env s)) (scope caller_ctx scope_id) = Some x).
  assert (P (run locator (tr ++ tr'))) as ->; [|done].
  unfold run. rewrite fold_left_app.
  apply (fold_left_invariant P (fun _ => true)); [|apply forallb_any|done].
  intros [[σ hs] p n] ev _ Hs. unfold P in *. cbn [env ctxs] in *.
  destruct ev as [pe ae| |[e|]| | |];
    cbn -[context.state context.CancelCauseFunc context.CancelFunc context.deadline];
    try done.
  - destruct p; try done. by destruct pe, ae.
  - by destruct (playwright.registered _ _ _).
  - destruct n; [done|].
    exact (state_cancel_stable 1 0 Background _ _ _ σ x
             ltac:(done) (or_introl eq_refl) Hs).
  - by destruct n.
  - exact (state_cancel_stable 1 0 Background _ _ _ σ x
             ltac:(done) (or_intror eq_refl) Hs).
  - exact (state_cancel_stable 1 0 Background _ _ _ σ x
             ltac:(done) (or_intror eq_refl) Hs).
  - destruct p; try done.
    destruct (RunPageLocator_leave _ _ _ _) as [[env' r]|] eqn:Hleave; [|done].
    apply RunPageLocator_leave_Some in Hleave as (_ & _ & _ & Hσ & _).
    cbn [env ctxs] in *. by rewrite Hσ.
Qed.

End Watch_more.

(** X9 for the login form of Jira, when the handler cannot be added. *)
Lemma X9_RunPageLocator_registration_fails_witness :
  Watch.result
    (Watch.run Scripted.form
       [Watch.Enter None (Some (errorString "locator must belong to the main frame of this page"));
        Watch.Trigger; Watch.Resume])
  = Some (Some (errorString "locator must belong to the main frame of this page")).
Proof.
  refine (proj1 (X9_RunPageLocator_registration_fails Scripted.form None
                   (Some (errorString "locator must belong to the main frame of this page"))
                   _ [Watch.Trigger; Watch.Resume] _)).
  reflexivity.
Defined.

(** X10 for a call that the caller has cancelled. *)
Lemma X10_RunPageLocator_returned_for_good_witness :
  Watch.result
    (Watch.run Scripted.form
       ([Watch.Enter None None; Watch.Trigger; Watch.Cancel; Watch.Resume]
        ++ [Watch.Trigger; Watch.Complete (Some (errorString "late")); Watch.Resume]))
  = Some (Some context.Canceled).
Proof.
  refine (proj1 (X10_RunPageLocator_returned_for_good Scripted.form
                   [Watch.Enter None None; Watch.Trigger; Watch.Cancel; Watch.Resume]
                   [Watch.Trigger; Watch.Complete (Some (errorString "late")); Watch.Resume]
                   (Some context.Canceled) _)).
  by vm_compute.
Defined.

(** X11 after a callback that succeeded. *)
Lemma X11_RunPageLocator_cancellation_unblocks_witness :
  ∃ err,
    Watch.result
      (Watch.run Scripted.form
         (Watch.Enter None None :: [Watch.Trigger; Watch.Complete None]
            ++ [Watch.Cancel; Watch.Resume]))
    = Some (Some err).
Proof.
  destruct (X11_RunPageLocator_cancellation_unblocks Scripted.form
              [Watch.Trigger; Watch.Complete None] Watch.Cancel (or_introl eq_refl))
    as (err & Herr & _).
  by exists err.
Defined.

(** X12 for two callbacks that fail one after the other. *)
Lemma X12_RunPageLocator_first_cause_wins_witness :
  context.Cause
    (ctxs (Watch.env
             (Watch.run Scripted.form
                ([Watch.Enter None None; Watch.Trigger; Watch.Trigger;
                  Watch.Complete (Some (errorString "first"))]
                 ++ [Watch.Complete (Some (errorString "second")); Watch.Deadline]))))
    (scope Watch.caller_ctx Watch.scope_id)
  = Some (errorString "first").
Proof.
  refine (X12_RunPageLocator_first_cause_wins Scripted.form
            [Watch.Enter None None; Watch.Trigger; Watch.Trigger;
             Watch.Complete (Some (errorString "first"))]
            [Watch.Complete (Some (errorString "second")); Watch.Deadline]
            (errorString "first") _).
  by vm_compute.
Defined.

(** ** More on contexts *)

Lemma state_insert_is_Some (σ : gmap nat context.canceled) i x ctx :
  is_Some (context.state σ ctx) → is_Some (context.state (<[i:=x]> σ) ctx).
Proof.
  induction ctx as [|id parent IH]; simpl; [done|].
  destruct (decide (i = id)) as [->|Hne].
  - by rewrite lookup_insert_eq.
  - rewrite lookup_insert_ne by done.
    destruct (σ !! id); [done | apply IH].
Qed.

(** A cancelled context stays cancelled. *)
Lemma Done_cancel_mono ctx' e c σ ctx :
  context.Done σ ctx = true → context.Done (context.cancel ctx' e c σ) ctx = true.
Proof.
  unfold context.Done. rewrite !bool_decide_eq_true. intros Hdone.
  unfold context.cancel. destruct ctx' as [|id parent]; [done|].
  destruct (context.state σ (cancelCtx id parent)); [done|].
  by apply state_insert_is_Some.
Qed.

Lemma Done_cancel_self id parent e c σ :
  context.Done (context.cancel (cancelCtx id parent) e c σ) (cancelCtx id parent) = true.
Proof.
  apply bool_decide_eq_true. unfold context.cancel.
  destruct (context.state σ (cancelCtx id parent)) as [x|] eqn:Hx.
  - by rewrite Hx.
  - simpl. by rewrite lookup_insert_eq.
Qed.

(** A context whose parent is cancelled is cancelled. *)
Lemma Done_child id parent σ :
  context.Done σ parent = true → context.Done σ (cancelCtx id parent) = true.
Proof.
  unfold context.Done. rewrite !bool_decide_eq_true. simpl.
  by destruct (σ !! id).
Qed.

(** ** More on a group of watchers *)

Section Group_more.

Import Group.
Context (locators : list Locator).

Lemma RunPageLocator_leave_handlers ctx id locator env env' r :
  RunPageLocator_leave ctx id locator env = Some (env', r) →
  locatorHandlers env' = playwright.RemoveLocatorHandler locator (locatorHandlers env).
Proof.
  unfold RunPageLocator_leave. destruct (context.Done _ _); [|done].
  by intros [= <- <-].
Qed.

Lemma returns_goroutines w n r env' s :
  goroutines (returns w n r env' s)
  = <[w := {| pc := Returned r; running := n |}]> (goroutines s)
  ∧ locatorHandlers (env (returns w n r env' s)) = locatorHandlers env'
  ∧ waited (returns w n r env' s) = waited s.
Proof. unfold returns. by destruct (errgroup.done _ _ _ _). Qed.

Lemma returns_Done w n r env' s ctx :
  context.Done (ctxs env') ctx = true →
  context.Done (ctxs (env (returns w n r env' s))) ctx = true.
Proof.
  intros Hdone. unfold returns, errgroup.done.
  destruct r as [err|], (g_err s) as [err'|]; cbn [env ctxs]; try done.
  exact (Done_cancel_mono group_ctx _ _ _ ctx Hdone).
Qed.

Lemma returns_cancels w n err env' s :
  ctxs env' = ctxs (env s) →
  Group_cancels s → Group_cancels (returns w n (Some err) env' s).
Proof.
  intros Henv Hs. unfold Group_cancels, returns, errgroup.done.
  destruct (g_err s) as [err'|] eqn:Hg; cbn [env ctxs g_err].
  - intros _. rewrite Henv. apply Hs. by rewrite Hg.
  - intros _. exact (Done_cancel_self 1 caller_ctx _ _ _).
Qed.

(** One goroutine moves on; the handlers that stay are those of the
    others, or its own if it waits. *)
Lemma Group_handlers_moves w g g' hs' s s' :
  Group_handlers locators s →
  goroutines s !! w = Some g →
  goroutines s' = <[w := g']> (goroutines s) →
  locatorHandlers (env s') = hs' →
  (∀ l h, (l, h) ∈ hs' →
     ((l, h) ∈ locatorHandlers (env s)
      ∧ (pc g = Blocked → pc g' = Blocked ∨ locators !! w ≠ Some l))
     ∨ (h = scope_id w ∧ locators !! w = Some l ∧ pc g' = Blocked)) →
  Group_handlers locators s'.
Proof.
  intros Hs Hw Hgs Hhs Hin l h Hlh. rewrite Hhs in Hlh.
  pose proof (lookup_lt_Some _ _ _ Hw) as Hlt.
  destruct (Hin l h Hlh) as [[Hold Hpc]|(-> & Hl & Hpc)].
  - destruct (Hs l h Hold) as (w0 & g0 & -> & Hl & Hw0 & Hblocked).
    destruct (decide (w0 = w)) as [->|Hne].
    + assert (g0 = g) as -> by congruence.
      destruct (Hpc Hblocked) as [Hpc'|Hl']; [|done].
      exists w, g'. rewrite Hgs. split_and!; try done.
      by apply list_lookup_insert_eq.
    + exists w0, g0. rewrite Hgs. split_and!; try done.
      by rewrite list_lookup_insert_ne.
  - exists w, g'. rewrite Hgs. split_and!; try done.
    by apply list_lookup_insert_eq.
Qed.

Lemma Group_handlers_step s ev :
  Group_handlers locators s → Group_handlers locators (step locators s ev).
Proof.
  intros Hs. destruct ev as [w page_err add_err|w|w r|w| | |]; simpl; try done.
  - destruct (locators !! w) as [locator|] eqn:Hl; [|done].
    destruct (goroutines s !! w) as [[[| |r] n]|] eqn:Hw; try done.
    destruct (RunPageLocator_enter (scope_id w) locator page_err add_err (env s))
      as [env' p'] eqn:Henter.
    unfold RunPageLocator_enter in Henter.
    destruct page_err as [e|]; [|destruct add_err as [e|]]; injection Henter as <- <-.
    + destruct (returns_goroutines w n (Some e) (env s) s) as (Hgs & Hhs & _).
      apply (Group_handlers_moves w _ _ _ s _ Hs Hw Hgs Hhs).
      intros l h Hlh. left. by split.
    + destruct (returns_goroutines w n (Some e) (env s) s) as (Hgs & Hhs & _).
      apply (Group_handlers_moves w _ _ _ s _ Hs Hw Hgs Hhs).
      intros l h Hlh. left. by split.
    + apply (Group_handlers_moves w _ {| pc := Blocked; running := n |}
               (playwright.AddLocatorHandler locator (scope_id w) (locatorHandlers (env s)))
               s _ Hs Hw); [done | done |].
      intros l h [Hold|Hnew%list_elem_of_singleton]%elem_of_app.
      * left. by split.
      * right. by injection Hnew as -> ->.
  - destruct (locators !! w) as [locator|] eqn:Hl; [|done].
    destruct (goroutines s !! w) as [g|] eqn:Hw; [|done].
    destruct (playwright.registered _ _ _); [|done].
    apply (Group_handlers_moves w g {| pc := pc g; running := S (running g) |}
             (locatorHandlers (env s)) s _ Hs Hw); [done | done |].
    intros l h Hlh. left. split; [done|]. by left.
  - destruct (goroutines s !! w) as [[p [|n]]|] eqn:Hw; try done.
    apply (Group_handlers_moves w _ {| pc := p; running := n |}
             (locatorHandlers (env s)) s _ Hs Hw); [done | by destruct r |].
    intros l h Hlh. left. split; [done|]. by left.
  - destruct (locators !! w) as [locator|] eqn:Hl; [|done].
    destruct (goroutines s !! w) as [[[| |r] n]|] eqn:Hw; try done.
    destruct (RunPageLocator_leave group_ctx (scope_id w) locator (env s))
      as [[env' r]|] eqn:Hleave; [|done].
    apply RunPageLocator_leave_handlers in Hleave.
    destruct (returns_goroutines w n r env' s) as (Hgs & Hhs & _).
    apply (Group_handlers_moves w _ _ _ s _ Hs Hw Hgs Hhs).
    intros l h Hlh. rewrite Hleave in Hlh.
    apply list_elem_of_filter in Hlh as [Hne Hold]. simpl in Hne.
    left. split; [done|]. intros _. right. congruence.
  - destruct (waited s); [done|]. by destruct (forallb returned (goroutines s)).
Qed.

(** X13: when [g.Wait()] has returned, every goroutine of the group has
    returned and the page has no handler of the group left. *)
Theorem X13_group_returns_clean (tr : list event) (r : option error) :
  waited (run locators tr) = Some r →
  locatorHandlers (env (run locators tr)) = []
  ∧ Forall (fun g => returned g = true) (goroutines (run locators tr)).
Proof.
  intros Hr.
  destruct (Group_inv_run locators tr) as (_ & _ & _ & Hwait).
  destruct (Hwait r Hr) as [_ Hall]. split; [|done].
  assert (Group_handlers locators (run locators tr)) as Hhs.
  { apply (fold_left_invariant (Group_handlers locators) (fun _ => true)).
    - intros s ev _. apply Group_handlers_step.
    - apply forallb_any.
    - intros l h Hlh. by apply elem_of_nil in Hlh. }
  destruct (locatorHandlers (env (run locators tr))) as [|[l h] hs] eqn:Hlist; [done|].
  destruct (Hhs l h) as (w & g & _ & _ & Hw & Hpc).
  { rewrite Hlist. apply elem_of_cons. by left. }
  rewrite Forall_lookup in Hall. specialize (Hall w g Hw).
  unfold returned in Hall. by rewrite Hpc in Hall.
Qed.

End Group_more.

Section Group_liveness.

Import Group.
Context (locators : list Locator).

Lemma returns_insert w n r env' s :
  goroutines (returns w n r env' s)
  = <[w := {| pc := Returned r; running := n |}]> (goroutines s).
Proof. apply returns_goroutines. Qed.

Lemma insert_keeps_returned (gs : list goroutine) w0 g0 g0' :
  gs !! w0 = Some g0 →
  (returned g0 = true → returned g0' = true) →
  ∀ w g, gs !! w = Some g → returned g = true →
         ∃ g', <[w0:=g0']> gs !! w = Some g' ∧ returned g' = true.
Proof.
  intros Hw0 Hkeeps w g Hw Hg.
  pose proof (lookup_lt_Some _ _ _ Hw0) as Hlt.
  destruct (decide (w = w0)) as [->|Hne].
  - exists g0'. split; [by apply list_lookup_insert_eq|].
    apply Hkeeps. congruence.
  - exists g. split; [|done]. by rewrite list_lookup_insert_ne.
Qed.

(** What no event undoes: the number of goroutines, the cancellation of a
    context, the return of a goroutine, the return of [g.Wait()]. *)
Lemma Group_step_mono s ev :
  length (goroutines (step locators s ev)) = length (goroutines s)
  ∧ (∀ ctx, context.Done (ctxs (env s)) ctx = true →
            context.Done (ctxs (env (step locators s ev))) ctx = true)
  ∧ (∀ w g, goroutines s !! w = Some g → returned g = true →
            ∃ g', goroutines (step locators s ev) !! w = Some g' ∧ returned g' = true)
  ∧ (is_Some (waited s) → is_Some (waited (step locators s ev))).
Proof.
  assert (∀ w g, goroutines s !! w = Some g → returned g = true →
                 ∃ g', goroutines s !! w = Some g' ∧ returned g' = true) as Hsame
    by eauto.
  destruct ev as [w0 page_err add_err|w0|w0 r|w0| | |]; simpl.
  - destruct (locators !! w0) as [locator|] eqn:Hl; [|done].
    destruct (goroutines s !! w0) as [[[| |r] n]|] eqn:Hw0; try done.
    destruct (RunPageLocator_enter (scope_id w0) locator page_err add_err (env s))
      as [env' p'] eqn:Henter.
    assert (ctxs env' = ctxs (env s)) as Hσ.
    { unfold RunPageLocator_enter in Henter.
      destruct page_err, add_err; by injection Henter as <- <-. }
    destruct p' as [| |r].
    + simpl. rewrite length_insert, Hσ. split_and!; try done.
      by apply (insert_keeps_returned _ w0 _ _ Hw0).
    + simpl. rewrite length_insert, Hσ. split_and!; try done.
      by apply (insert_keeps_returned _ w0 _ _ Hw0).
    + destruct (returns_goroutines w0 n r env' s) as (-> & _ & ->).
      rewrite length_insert. split_and!; try done.
      * intros ctx Hdone. apply returns_Done. by rewrite Hσ.
      * by apply (insert_keeps_returned _ w0 _ _ Hw0).
  - destruct (locators !! w0) as [locator|] eqn:Hl; [|done].
    destruct (goroutines s !! w0) as [g0|] eqn:Hw0; [|done].
    destruct (playwright.registered _ _ _); [|done].
    simpl. rewrite length_insert. split_and!; try done.
    by apply (insert_keeps_returned _ w0 _ _ Hw0).
  - destruct (goroutines s !! w0) as [[p [|n]]|] eqn:Hw0; try done.
    simpl. rewrite length_insert. split_and!; try done.
    + intros ctx Hdone. destruct r as [err|]; [|done].
      exact (Done_cancel_mono (scope group_ctx (scope_id w0)) _ _ _ ctx Hdone).
    + by apply (insert_keeps_returned _ w0 _ _ Hw0).
  - destruct (locators !! w0) as [locator|] eqn:Hl; [|done].
    destruct (goroutines s !! w0) as [[[| |r] n]|] eqn:Hw0; try done.
    destruct (RunPageLocator_leave group_ctx (scope_id w0) locator (env s))
      as [[env' r]|] eqn:Hleave; [|done].
    apply RunPageLocator_leave_Some in Hleave as (_ & _ & _ & Hσ & _).
    destruct (returns_goroutines w0 n r env' s) as (-> & _ & ->).
    rewrite length_insert. split_and!; try done.
    + intros ctx Hdone. apply returns_Done. by rewrite Hσ.
    + by apply (insert_keeps_returned _ w0 _ _ Hw0).
  - split_and!; try done. intros ctx Hdone.
    exact (Done_cancel_mono caller_ctx _ _ _ ctx Hdone).
  - split_and!; try done. intros ctx Hdone.
    exact (Done_cancel_mono caller_ctx _ _ _ ctx Hdone).
  - destruct (waited s) eqn:Hwaited; [by rewrite Hwaited|].
    destruct (forallb returned (goroutines s)); [|by rewrite Hwaited].
    simpl. split_and!; try done. intros ctx Hdone.
    exact (Done_cancel_mono group_ctx _ _ _ ctx Hdone).
Qed.

Lemma Group_draining_step i s ev :
  Group_draining locators i s → Group_draining locators i (step locators s ev).
Proof.
  intros (Hdone & Hlen & Hret).
  destruct (Group_step_mono s ev) as (Hlen' & Hdone' & Hret' & _).
  split_and!; [by apply Hdone' | congruence |].
  intros w Hw. destruct (Hret w Hw) as (g & Hg & Hreturned). by eapply Hret'.
Qed.

(** A goroutine of a group whose context is cancelled returns when it is
    given the occasion to register and to wake up. *)
Lemma Group_draining_wake i s :
  i < length locators →
  Group_draining locators i s →
  Group_draining locators (S i)
    (step locators (step locators s (Enter i None None)) (Resume i)).
Proof.
  intros Hi Hs.
  apply Group_draining_step with (ev := Enter i None None) in Hs as Hs1.
  apply Group_draining_step with (ev := Resume i) in Hs1 as Hs2.
  destruct Hs2 as (Hdone2 & Hlen2 & Hret2). split_and!; [done | done |].
  intros w Hw. destruct (decide (w = i)) as [->|Hne]; [|apply Hret2; lia].
  clear Hret2 Hdone2 Hlen2 Hw.
  destruct Hs as (Hdone & Hlen & _).
  destruct (lookup_lt_is_Some_2 locators i Hi) as [locator Hl].
  destruct (lookup_lt_is_Some_2 (goroutines s) i) as [[p n] Hg]; [lia|].
  assert (∀ s1 n1, goroutines s1 !! i = Some {| pc := Blocked; running := n1 |} →
                   context.Done (ctxs (env s1)) group_ctx = true →
                   ∃ g, goroutines (step locators s1 (Resume i)) !! i = Some g
                        ∧ returned g = true) as Hresume.
  { intros s1 n1 Hg1 Hdone1. unfold step. rewrite Hl, Hg1.
    unfold RunPageLocator_leave, scope. cbn [ctxs].
    rewrite (Done_child (scope_id i) group_ctx _ Hdone1).
    rewrite returns_insert.
    eexists. split; [apply list_lookup_insert_eq; by eapply lookup_lt_Some | done]. }
  destruct p as [| |r].
  - apply Hresume with (n1 := n).
    + simpl. rewrite Hl, Hg. simpl.
      apply list_lookup_insert_eq. by eapply lookup_lt_Some.
    + destruct Hs1 as (Hdone1 & _). done.
  - apply Hresume with (n1 := n).
    + simpl. by rewrite Hl, Hg.
    + destruct Hs1 as (Hdone1 & _). done.
  - exists {| pc := Returned r; running := n |}.
    repeat (simpl; rewrite ?Hl, ?Hg). done.
Qed.

Lemma Group_draining_wake_all (K : nat) : ∀ s,
  (K ≤ length locators)%nat →
  Group_draining locators 0 s →
  Group_draining locators K (fold_left (step locators) (Group_wake_all K) s).
Proof.
  induction K as [|K IH]; intros s HK Hs; [done|].
  simpl. rewrite fold_left_app. simpl.
  apply Group_draining_wake; [lia|]. apply IH; [lia | done].
Qed.

(** With the context of the group cancelled, [g.Wait()] returns once every
    goroutine was given the occasion to register and to wake up. *)
Lemma Group_drains s :
  length (goroutines s) = length locators →
  context.Done (ctxs (env s)) group_ctx = true →
  is_Some (waited (fold_left (step locators)
                     (Group_wake_all (length locators) ++ [Wait]) s)).
Proof.
  intros Hlen Hdone. rewrite fold_left_app.
  destruct (Group_draining_wake_all (length locators) s) as (_ & Hlen' & Hret);
    [done | split_and!; [done | done | intros w Hw; lia] | ].
  set (s' := fold_left (step locators) (Group_wake_all (length locators)) s) in *.
  simpl. destruct (waited s') eqn:Hwaited; [by rewrite Hwaited|].
  assert (forallb returned (goroutines s') = true) as ->.
  { apply forallb_Forall, Forall_lookup. intros w g Hg.
    destruct (Hret w) as (g' & Hg' & Hreturned); [|congruence].
    rewrite <- Hlen'. by eapply lookup_lt_Some. }
  by simpl.
Qed.

End Group_liveness.

Section Group_returns.

Import Group.
Context (locators : list Locator).

Lemma Group_cancels_step s ev :
  Group_cancels s → Group_cancels (step locators s ev).
Proof.
  intros Hs.
  assert (∀ ctx' e c, is_Some (g_err s) →
            context.Done (context.cancel ctx' e c (ctxs (env s))) group_ctx = true)
    as Hmono.
  { intros ctx' e c Hg. apply Done_cancel_mono. by apply Hs. }
  destruct ev as [w page_err add_err|w|w r|w| | |];
    cbn -[context.Done context.CancelCauseFunc context.CancelFunc context.deadline
          returns RunPageLocator_handler scope_id].
  - destruct (locators !! w) as [locator|] eqn:Hl; [|done].
    destruct (goroutines s !! w) as [[[| |r] n]|] eqn:Hw; try done.
    destruct (RunPageLocator_enter (scope_id w) locator page_err add_err (env s))
      as [env' p'] eqn:Henter.
    assert (ctxs env' = ctxs (env s)) as Hσ.
    { unfold RunPageLocator_enter in Henter.
      destruct page_err, add_err; by injection Henter as <- <-. }
    destruct p' as [| |r].
    + unfold Group_cancels. cbn [g_err env]. rewrite Hσ. apply Hs.
    + unfold Group_cancels. cbn [g_err env]. rewrite Hσ. apply Hs.
    + apply RunPageLocator_enter_Returned in Henter as [[err ->] _].
      by apply returns_cancels.
  - destruct (locators !! w) as [locator|] eqn:Hl; [|done].
    destruct (goroutines s !! w) as [g|] eqn:Hw; [|done].
    by destruct (playwright.registered _ _ _).
  - destruct (goroutines s !! w) as [[p [|n]]|] eqn:Hw; try done.
    unfold Group_cancels. cbn [g_err env]. intros Hg.
    destruct r as [err|]; [|by apply Hs].
    exact (Hmono (scope group_ctx (scope_id w)) _ _ Hg).
  - destruct (locators !! w) as [locator|] eqn:Hl; [|done].
    destruct (goroutines s !! w) as [[[| |r] n]|] eqn:Hw; try done.
    destruct (RunPageLocator_leave group_ctx (scope_id w) locator (env s))
      as [[env' r]|] eqn:Hleave; [|done].
    apply RunPageLocator_leave_Some in Hleave as (_ & _ & [err ->] & Hσ & _).
    by apply returns_cancels.
  - unfold Group_cancels. cbn [g_err env ctxs]. intros Hg.
    exact (Hmono caller_ctx _ _ Hg).
  - unfold Group_cancels. cbn [g_err env ctxs]. intros Hg.
    exact (Hmono caller_ctx _ _ Hg).
  - destruct (waited s); [done|].
    destruct (forallb returned (goroutines s)); [|done].
    unfold Group_cancels, errgroup.Wait. cbn [g_err env ctxs]. intros Hg.
    exact (Hmono group_ctx _ _ Hg).
Qed.

Lemma Group_cancels_run tr : Group_cancels (run locators tr).
Proof.
  apply (fold_left_invariant Group_cancels (fun _ => true)).
  - intros s ev _. apply Group_cancels_step.
  - apply forallb_any.
  - by intros [? ?].
Qed.

(** X14: in a group with a watcher, whatever has happened, once the caller
    has cancelled its context or the deadline of that context has passed,
    [g.Wait()] returns, with an error, after every goroutine was given the
    occasion to register and to wake up. *)
Theorem X14_group_cancellation_unblocks (tr : list event) (ev : event) :
  locators ≠ [] →
  ev = Cancel ∨ ev = Deadline →
  ∃ err,
    waited (run locators
              (tr ++ [ev] ++ Group_wake_all (length locators) ++ [Wait]))
    = Some (Some err).
Proof.
  intros Hne Hev.
  set (trace := (tr ++ [ev] ++ Group_wake_all (length locators) ++ [Wait])%list).
  assert (is_Some (waited (run locators trace))) as [r Hr].
  { unfold trace, run. rewrite app_assoc, fold_left_app.
    apply Group_drains.
    - fold (run locators (tr ++ [ev])).
      by destruct (Group_inv_run locators (tr ++ [ev])) as (Hlen & _).
    - rewrite fold_left_app. cbn [fold_left]. apply Done_child.
      destruct Hev as [->| ->]; exact (Done_cancel_self 0 Background _ _ _). }
  destruct r as [err|]; [by exists err|].
  by destruct (Group_waited_error locators trace Hne).
Qed.

(** X15: when a callback of a goroutine that waits fails, [g.Wait()]
    returns, with an error, after that goroutine has woken up and every
    goroutine was given the occasion to register and to wake up: the
    failure of one watcher ends the wait of the others. *)
Theorem X15_group_failure_unblocks (tr : list event) (w n : nat) (e : error) :
  goroutines (run locators tr) !! w = Some {| pc := Blocked; running := S n |} →
  ∃ err,
    waited (run locators
              (tr ++ [Complete w (Some e); Resume w]
                  ++ Group_wake_all (length locators) ++ [Wait]))
    = Some (Some err).
Proof.
  intros Hw.
  destruct (Group_inv_run locators tr) as (Hlen & _).
  assert (locators ≠ []) as Hne.
  { apply lookup_lt_Some in Hw. rewrite Hlen in Hw. destruct locators; simpl in *; [lia|done]. }
  destruct (lookup_lt_is_Some_2 locators w) as [locator Hl].
  { rewrite <- Hlen. by eapply lookup_lt_Some. }
  set (trace := (tr ++ [Complete w (Some e); Resume w]
                    ++ Group_wake_all (length locators) ++ [Wait])%list).
  set (s2 := run locators (tr ++ [Complete w (Some e); Resume w])%list).
  assert (∃ g, goroutines s2 !! w = Some g ∧ returned g = true) as (g & Hg & Hreturned).
  { unfold s2, run. rewrite fold_left_app. fold (run locators tr).
    cbn [fold_left]. unfold step at 2. rewrite Hw.
    unfold step. cbn [goroutines env]. rewrite Hl.
    rewrite list_lookup_insert_eq by (by eapply lookup_lt_Some).
    unfold RunPageLocator_leave, RunPageLocator_handler. cbn [ctxs].
    unfold context.CancelCauseFunc, scope.
    rewrite (Done_cancel_self (scope_id w) group_ctx).
    rewrite returns_insert. cbn [goroutines].
    eexists. split.
    - apply list_lookup_insert_eq. rewrite length_insert. by eapply lookup_lt_Some.
    - done. }
  assert (is_Some (waited (run locators trace))) as [r Hr].
  { unfold trace, run. rewrite app_assoc, fold_left_app.
    fold (run locators (tr ++ [Complete w (Some e); Resume w])). fold s2.
    destruct (Group_inv_run locators (tr ++ [Complete w (Some e); Resume w]))
      as (Hlen2 & _ & Hfirst & _). fold s2 in Hlen2, Hfirst.
    apply Group_drains; [done|].
    apply (Group_cancels_run (tr ++ [Complete w (Some e); Resume w])).
    fold s2. destruct Hfirst as [Hsome|Hnone]; [done|].
    rewrite Forall_lookup in Hnone. specialize (Hnone w g Hg). congruence. }
  destruct r as [err|]; [by exists err|].
  by destruct (Group_waited_error locators trace Hne).
Qed.

End Group_returns.

(** X13 for the group of the Atlassian login, cancelled by the caller. *)
Lemma X13_group_returns_clean_witness :
  locatorHandlers
    (Group.env
       (Group.run (AtlassianLoginHandler_locators 1)
          [Group.Enter 0 None None; Group.Enter 1 None None;
           Group.Enter 2 None None; Group.Enter 3 None None;
           Group.Trigger 0; Group.Complete 0 None; Group.Cancel;
           Group.Resume 0; Group.Resume 1; Group.Resume 2; Group.Resume 3;
           Group.Wait]))
  = [].
Proof.
  refine (proj1 (X13_group_returns_clean (AtlassianLoginHandler_locators 1) _
                   (Some context.Canceled) _)).
  by vm_compute.
Defined.

(** X14 for the group of the Atlassian login, after the username was
    given. *)
Lemma X14_group_cancellation_unblocks_witness :
  ∃ err,
    Group.waited
      (Group.run (AtlassianLoginHandler_locators 1)
         ([Group.Enter 0 None None; Group.Trigger 0; Group.Complete 0 None]
          ++ [Group.Cancel]
          ++ Group_wake_all (length (AtlassianLoginHandler_locators 1))
          ++ [Group.Wait]))
    = Some (Some err).
Proof.
  refine (X14_group_cancellation_unblocks (AtlassianLoginHandler_locators 1)
            [Group.Enter 0 None None; Group.Trigger 0; Group.Complete 0 None]
            Group.Cancel _ _).
  - discriminate.
  - by left.
Defined.

(** X15 for the group of the Atlassian login, when the password cannot be
    resolved. *)
Lemma X15_group_failure_unblocks_witness :
  ∃ err,
    Group.waited
      (Group.run (AtlassianLoginHandler_locators 1)
         ([Group.Enter 1 None None; Group.Trigger 1]
          ++ [Group.Complete 1 (Some (errorString "no credentials specified"));
              Group.Resume 1]
          ++ Group_wake_all (length (AtlassianLoginHandler_locators 1))
          ++ [Group.Wait]))
    = Some (Some err).
Proof.
  refine (X15_group_failure_unblocks (AtlassianLoginHandler_locators 1)
            [Group.Enter 1 None None; Group.Trigger 1] 1 0
            (errorString "no credentials specified") _).
  by vm_compute.
Defined.

(** ** The errors of TimeParseAny *)

Section TimeParseAny_errors.

Context {Time : Type} (zeroTime : Time).
Context (time_Parse : string → string → Time + error).

Lemma parse_errors_elem (formats : list string) (value format : string) (err : error) :
  format ∈ formats → time_Parse format value = inr err →
  err ∈ parse_errors time_Parse formats value.
Proof.
  intros Hin Herr. unfold parse_errors. apply list_elem_of_omap.
  exists format. by rewrite Herr.
Qed.

(** X16: when no format parses the value, the error that [TimeParseAny]
    returns keeps the error of every format: [errors.Is] finds each of them
    in it. *)
Theorem X16_TimeParseAny_keeps_errors (formats : list string) (value format : string)
    (err : error) :
  Forall (fails time_Parse value) formats →
  format ∈ formats →
  time_Parse format value = inr err →
  ∃ joined,
    (TimeParseAny zeroTime time_Parse formats value).2 = Some joined
    ∧ errors.Is joined err = true.
Proof.
  intros Hfails Hin Herr. unfold TimeParseAny.
  rewrite (TimeParseAny_loop_fails zeroTime time_Parse [] _ _ Hfails). simpl.
  pose proof (parse_errors_elem _ _ _ _ Hin Herr) as Helem.
  destruct (parse_errors time_Parse formats value) as [|e errs] eqn:Herrs;
    [by apply elem_of_nil in Helem|].
  eexists. split; [done|]. by apply Is_joinError.
Qed.

End TimeParseAny_errors.

(** X16 at the two layouts of [ResolveLicenseDetails] and a value that is
    no date. *)
Lemma X16_TimeParseAny_keeps_errors_witness :
  ∃ joined,
    (TimeParseAny 0%Z Script.time_Parse ["02/Jan/06"; "2 Jan 2006"] "soon").2
    = Some joined
    ∧ errors.Is joined (errorString "cannot parse the value") = true.
Proof.
  refine (X16_TimeParseAny_keeps_errors 0%Z Script.time_Parse
            ["02/Jan/06"; "2 Jan 2006"] "soon" "02/Jan/06"
            (errorString "cannot parse the value") _ _ _).
  - repeat constructor; by eexists.
  - set_solver.
  - reflexivity.
Defined.

(** ** The workflow acts through the driver *)

Section keeps_spec.

Context {World : Type} (R : World → World → Prop) `{!PreOrder R}.

Lemma keeps_ret {A : Type} (a : A) : keeps R (playwright.ret a).
Proof. intros w w' r [= <- _]. reflexivity. Qed.

Lemma keeps_fail {A : Type} (err : error) : keeps R (fail (A := A) err).
Proof. intros w w' r [= <- _]. reflexivity. Qed.

Lemma keeps_bind {A B : Type} (m : M World A) (k : A → M World B) :
  keeps R m → (∀ a, keeps R (k a)) → keeps R (playwright.bind m k).
Proof.
  intros Hm Hk w w' r. unfold playwright.bind.
  destruct (m w) as [w1 [a|err]] eqn:Hmw.
  - intros Hka. transitivity w1; [by eapply Hm | by eapply Hk].
  - intros [= <- _]. by eapply Hm.
Qed.

Lemma keeps_wrapped {A : Type} prefix (m : M World A) :
  keeps R m → keeps R (wrapped prefix m).
Proof.
  intros Hm w w' r. unfold wrapped.
  destruct (m w) as [w1 [a|err]] eqn:Hmw; intros [= <- _]; by eapply Hm.
Qed.

Lemma keeps_unless_timeout (m : M World ()) :
  keeps R m → keeps R (unless_timeout m).
Proof.
  intros Hm w w' r. unfold unless_timeout.
  destruct (m w) as [w1 [a|err]] eqn:Hmw.
  - intros [= <- _]. by eapply Hm.
  - destruct (errors.Is err playwright.ErrTimeout); intros [= <- _]; by eapply Hm.
Qed.

Context `{!Driver World} `{!Browser World}.
Context (Hdriver : Driver_keeps R).

Lemma keeps_sleep_second : keeps R sleep_second.
Proof. intros w w' r [= <- _]. apply (keeps_Sleep R Hdriver). Qed.

Lemma GetLicenseKey_keeps ctx page params : keeps R (GetLicenseKey ctx page params).
Proof.
  destruct Hdriver. unfold GetLicenseKey.
  repeat first
    [ apply keeps_bind; [|intros ?]
    | apply keeps_wrapped
    | apply keeps_unless_timeout
    | apply keeps_sleep_second
    | apply keeps_ret
    | done ].
  intros w w' r [= <- _]. reflexivity.
Qed.

Context {Time : Type} (zeroTime : Time).
Context (time_Parse : string → string → Time + error).

Lemma ResolveServerID_keeps ctx page params : keeps R (ResolveServerID ctx page params).
Proof.
  destruct Hdriver. unfold ResolveServerID.
  repeat first
    [ apply keeps_bind; [|intros ?] | apply keeps_wrapped | done ].
Qed.

Lemma ResolveLicenseDetails_loop_keeps detailFields : ∀ result,
  keeps R (ResolveLicenseDetails_loop zeroTime time_Parse detailFields result).
Proof.
  destruct Hdriver.
  induction detailFields as [|item detailFields IH]; intros result; simpl.
  - apply keeps_ret.
  - apply keeps_bind; [done|]. intros name.
    apply keeps_bind; [done|]. intros value.
    destruct (ResolveLicenseDetails_field _ _ _ _ _); [apply IH | apply keeps_fail].
Qed.

Lemma ResolveLicenseDetails_keeps ctx page params :
  keeps R (ResolveLicenseDetails zeroTime time_Parse ctx page params).
Proof.
  pose proof ResolveLicenseDetails_loop_keeps as Hloop.
  destruct Hdriver. unfold ResolveLicenseDetails.
  repeat first
    [ apply keeps_bind; [|intros ?] | apply keeps_wrapped | apply Hloop | done ].
Qed.

Lemma UpdateJiraLicenseKey_keeps ctx page params :
  keeps R (UpdateJiraLicenseKey ctx page params).
Proof.
  destruct Hdriver. unfold UpdateJiraLicenseKey.
  repeat first
    [ apply keeps_bind; [|intros ?]
    | apply keeps_wrapped
    | apply keeps_unless_timeout
    | apply keeps_ret
    | done ].
Qed.

Context `{!Clock World Time}.

(** [processInstance] takes the world where the calls of the driver and
    of [getLicenseKey] take it. *)
Lemma processInstance_keeps ctx page instance
    (getLicenseKey : Context → string → M World string) :
  (∀ ctx' serverID, keeps R (getLicenseKey ctx' serverID)) →
  keeps R (processInstance zeroTime time_Parse ctx page instance getLicenseKey).
Proof.
  intros Hkey. unfold processInstance.
  apply keeps_bind; [apply keeps_wrapped, ResolveLicenseDetails_keeps|].
  intros licenseDetails w w' r.
  destruct (enough_trial_left licenseDetails w).
  - intros [= <- _]. reflexivity.
  - revert w w' r.
    apply keeps_bind; [apply keeps_wrapped, ResolveServerID_keeps|]. intros serverID.
    apply keeps_bind; [apply keeps_wrapped, Hkey|]. intros licenseKey.
    apply UpdateJiraLicenseKey_keeps.
Qed.

End keeps_spec.

(** ** The loop of run *)

Lemma Err_all_Canceled σ ctx :
  all_Canceled σ → context.Done σ ctx = true →
  context.Err σ ctx = Some context.Canceled.
Proof.
  intros Hσ [c Hc]%bool_decide_eq_true. unfold context.Err. rewrite Hc. simpl.
  f_equal. clear -Hσ Hc.
  induction ctx as [|id parent IH]; simpl in Hc; [done|].
  destruct (σ !! id) as [c'|] eqn:Hid; [|by apply IH].
  injection Hc as <-. by eapply Hσ.
Qed.

Lemma all_Canceled_cancel ctx c σ :
  all_Canceled σ → all_Canceled (context.cancel ctx context.Canceled c σ).
Proof.
  intros Hσ. unfold context.cancel. destruct ctx as [|id parent]; [done|].
  destruct (context.state σ (cancelCtx id parent)); [done|].
  intros id' c'. rewrite lookup_insert. case_decide; [|by apply Hσ].
  by intros [= <-].
Qed.

Section Run_spec.

Context {World : Type} `{!Driver World} `{!Browser World}.
Context {Time : Type} (zeroTime : Time).
Context (time_Parse : string → string → Time + error).
Context `{!Clock World Time}.

#[local] Instance Process_step_preorder : PreOrder (Process_step (World := World)).
Proof.
  split.
  - by intros s.
  - intros s1 s2 s3 (Hinv12 & Hdone12 & Hcell12) (Hinv23 & Hdone23 & Hcell23).
    split_and!.
    + auto.
    + auto.
    + intros Hsome. destruct (Hcell12 Hsome) as [Hc Hp].
      destruct Hcell23 as [Hc' Hp']; [by rewrite Hc|]. split; congruence.
Qed.

(** A call on the browser changes nothing but the browser. *)
Lemma on_browser_keeps {A : Type} (m : M World A) :
  keeps Process_step (on_browser m).
Proof.
  intros [[w g n] c σ] s' r. unfold on_browser. simpl.
  destruct (m w) as [w' r']. by intros [= <- _].
Qed.

Lemma Process_driver_keeps :
  Driver_keeps (World := Process) Process_step.
Proof.
  split; intros; try apply on_browser_keeps.
  by destruct w as [[w0 g n] c σ].
Qed.

(** The cancellation of a context with [Canceled] is a step. *)
Lemma Process_step_cancel ctx cause (s : Process (World := World)) :
  Process_step s
    {| proc := proc s; page_cell := page_cell s;
       proc_ctxs := context.cancel ctx context.Canceled cause (proc_ctxs s) |}.
Proof.
  split_and!; cbn [proc page_cell proc_ctxs].
  - intros [Hcell Hσ]. split; [|by apply all_Canceled_cancel].
    cbn [proc page_cell proc_ctxs].
    destruct (page_cell s) as [r|]; [|done].
    destruct Hcell as (Hn & Hl & Hdone). split_and!; [done | done |].
    intros Hr. by apply Done_cancel_mono, Hdone.
  - intros ctx' Hdone. by apply Done_cancel_mono.
  - done.
Qed.

Lemma run_getLicenseKey_keeps ctx serverId :
  keeps Process_step (run_getLicenseKey ctx serverId).
Proof.
  intros [[w g n] c σ] s' r. unfold run_getLicenseKey, resolveAtlassianPage, sync.OnceValues.
  cbn [proc page_cell proc_ctxs].
  destruct c as [[page err]|].
  - destruct err as [err|]; [|destruct page as [page|]].
    + intros [= <- _].
      exact (Process_step_cancel run_root_ctx _
               {| proc := {| world := w; rootGroup := g; pages_created := n |};
                  page_cell := Some (page, Some err); proc_ctxs := σ |}).
    + apply (GetLicenseKey_keeps Process_step Process_driver_keeps).
    + by intros [= <- _].
  - unfold newAtlassianPage. cbn [world rootGroup pages_created].
    destruct (playwright.NewPage w) as [w' [page|err]].
    + intros Hkey.
      transitivity
        {| proc := {| world := w';
                      rootGroup := g ++ [ClosePageWhenDone page; RunAtlassianLogin page];
                      pages_created := S n |};
           page_cell := Some (Some page, None); proc_ctxs := σ |}.
      * split_and!; cbn [proc page_cell proc_ctxs]; [|done|by intros [? ?]].
        intros [Hcell Hσ]. simpl in Hcell. destruct Hcell as [-> ->].
        split; [|done]. cbn [proc page_cell pages_created rootGroup].
        split_and!; [done | cbv; lia | by intros [? ?]].
      * by apply (GetLicenseKey_keeps Process_step Process_driver_keeps) in Hkey.
    + intros [= <- _]. split_and!; cbn [proc page_cell proc_ctxs].
      * intros [Hcell Hσ]. simpl in Hcell. destruct Hcell as [-> ->].
        split; [|exact (all_Canceled_cancel run_root_ctx _ σ Hσ)].
        cbn [proc page_cell pages_created rootGroup].
        split_and!; [done | cbv; lia |]. intros _.
        exact (Done_cancel_self 0 Background _ _ _).
      * intros ctx' Hdone. exact (Done_cancel_mono run_root_ctx _ _ σ ctx' Hdone).
      * by intros [? ?].
Qed.

Lemma run_loop_step jiraPage instances : ∀ id s,
  Process_step s (run_loop zeroTime time_Parse jiraPage id instances s).1.
Proof.
  induction instances as [|instance instances IH]; intros id s; simpl; [done|].
  destruct (context.Done (proc_ctxs s) run_ctx); [done|].
  set (s1 := (processInstance _ _ _ _ _ _ s).1).
  transitivity s1.
  { apply (processInstance_keeps Process_step Process_driver_keeps zeroTime time_Parse
             (cancelCtx (S id) (cancelCtx id run_ctx)) jiraPage instance
             run_getLicenseKey run_getLicenseKey_keeps s s1
             (processInstance zeroTime time_Parse
                (cancelCtx (S id) (cancelCtx id run_ctx)) jiraPage instance
                run_getLicenseKey s).2).
    unfold s1. by destruct (processInstance _ _ _ _ _ _ s). }
  etransitivity; [|apply IH].
  exact (Process_step_cancel (cancelCtx id run_ctx) _ s1).
Qed.

Lemma Process_inv_init (w : World) : Process_inv (run_init w).
Proof. split; [done|]. intros id c. simpl. by rewrite lookup_empty. Qed.

(** X17: whatever the instances are and whatever the browser answers, the
    loop of [run] opens the Atlassian page at most once and starts its
    login handler at most once. *)
Theorem X17_run_opens_one_page (w : World) (jiraPage : Page)
    (instances : list JiraInstance) :
  let s := (run_loop zeroTime time_Parse jiraPage 2 instances (run_init w)).1 in
  (pages_created (proc s) ≤ 1)%nat
  ∧ (length (filter is_login (rootGroup (proc s))) ≤ 1)%nat.
Proof.
  destruct (run_loop_step jiraPage instances 2 (run_init w)) as (Hinv & _).
  destruct (Hinv (Process_inv_init w)) as [Hcell _]. simpl.
  destruct (page_cell _) as [r|].
  - destruct Hcell as (-> & Hl & _). split; [lia | done].
  - destruct Hcell as (-> & ->). simpl. split; lia.
Qed.

Lemma run_loop_app jiraPage (instances1 instances2 : list JiraInstance) : ∀ id s,
  run_loop zeroTime time_Parse jiraPage id (instances1 ++ instances2) s =
  match run_loop zeroTime time_Parse jiraPage id instances1 s with
  | (s1, Some r) => (s1, Some r)
  | (s1, None) =>
      run_loop zeroTime time_Parse jiraPage (id + 2 * length instances1) instances2 s1
  end.
Proof.
  induction instances1 as [|instance instances1 IH]; intros id s; simpl.
  - by rewrite Nat.add_0_r.
  - destruct (context.Done (proc_ctxs s) run_ctx); [done|].
    rewrite IH. replace (S (S id) + 2 * length instances1) with
      (id + S (length instances1 + S (length instances1 + 0))) by lia.
    done.
Qed.

(** What the loop returns from inside is [Canceled]. *)
Lemma run_loop_Canceled jiraPage instances : ∀ id s s' r,
  Process_inv s →
  run_loop zeroTime time_Parse jiraPage id instances s = (s', Some r) →
  r = Some context.Canceled.
Proof.
  induction instances as [|instance instances IH]; intros id s s' r Hs; simpl; [done|].
  destruct (context.Done (proc_ctxs s) run_ctx) eqn:Hdone.
  - intros [= <- <-]. apply Err_all_Canceled; [by destruct Hs | done].
  - apply IH.
    pose proof (run_loop_step jiraPage [instance] id s) as (Hinv & _).
    simpl in Hinv. rewrite Hdone in Hinv. by apply Hinv.
Qed.

(** X18: once the Atlassian page could not be opened, the loop of [run]
    processes no further instance: it returns [Canceled] at the next
    instance and leaves the process as it was. *)
Theorem X18_run_stops_without_page (w : World) (jiraPage : Page)
    (instances1 instances2 : list JiraInstance) :
  let s1 := (run_loop zeroTime time_Parse jiraPage 2 instances1 (run_init w)).1 in
  (∃ page err, page_cell s1 = Some (page, Some err)) →
  instances2 ≠ [] →
  run_loop zeroTime time_Parse jiraPage 2 (instances1 ++ instances2) (run_init w)
  = (s1, Some (Some context.Canceled)).
Proof.
  intros s1 (page & err & Hcell) Hne. rewrite run_loop_app.
  pose proof (run_loop_step jiraPage instances1 2 (run_init w)) as (Hinv & _).
  specialize (Hinv (Process_inv_init w)). fold s1 in Hinv.
  destruct (run_loop zeroTime time_Parse jiraPage 2 instances1 (run_init w))
    as [s1' [r|]] eqn:Hloop; simpl in s1; subst s1.
  - f_equal. f_equal.
    by apply (run_loop_Canceled _ _ _ _ _ _ (Process_inv_init w) Hloop).
  - destruct instances2 as [|instance instances2]; [done|]. simpl.
    destruct Hinv as [Hinv Hσ]. rewrite Hcell in Hinv.
    destruct Hinv as (_ & _ & Hdone).
    assert (context.Done (proc_ctxs s1') run_ctx = true) as Hctx.
    { apply Done_child, Hdone. by eexists. }
    rewrite Hctx. f_equal. f_equal. by apply Err_all_Canceled.
Qed.

End Run_spec.

(** X18 on a scripted run of two instances, when the browser is closed
    before the Atlassian page is opened. *)
Lemma X18_run_stops_without_page_witness :
  (run_loop 0%Z Script.time_Parse Script.jiraPage 2
     ([Script.instance] ++ [Script.instance])
     (run_init
        [Script.Ok; Script.Ok; Script.Items 1;
         Script.Text "Trial expires"; Script.Text "day 3";
         Script.Ok; Script.Ok; Script.Text "B0AB-CDEF";
         Script.Failure (errorString "Target page, context or browser has been closed")])).2
  = Some (Some context.Canceled).
Proof.
  refine (f_equal snd
            (X18_run_stops_without_page 0%Z Script.time_Parse
               [Script.Ok; Script.Ok; Script.Items 1;
                Script.Text "Trial expires"; Script.Text "day 3";
                Script.Ok; Script.Ok; Script.Text "B0AB-CDEF";
                Script.Failure (errorString "Target page, context or browser has been closed")]
               Script.jiraPage [Script.instance] [Script.instance] _ _)).
  - eexists _, _. vm_compute. reflexivity.
  - discriminate.
Defined.

(** ** When the login Reaction succeeds *)

(** X19: the callback of the login form returns nil only when the form was
    submitted and the read of the error banner failed with a timeout: never
    when a step of the submission failed, when the banner had a text, or
    when the read failed otherwise. *)
Theorem X19_login_succeeds_only_without_banner {World : Type} `{!Driver World}
    (s : JiraLoginHandler (World := World)) (page : Page) (ctx : Context)
    (locator : Locator) (w w' : World) :
  JiraLoginHandler_cb s page ctx locator w = (w', inl ()) →
  ∃ w1 err,
    JiraLoginHandler_submit s ctx locator w = (w1, inl ())
    ∧ playwright.InnerText (page_Locator page login_error_selector) (Some 1000%Z) w1
      = (w', inr err)
    ∧ errors.Is err playwright.ErrTimeout = true.
Proof.
  unfold JiraLoginHandler_cb. intros H.
  apply bind_inl in H as (w1 & [] & Hsubmit & Hprobe).
  unfold JiraLoginHandler_probe in Hprobe.
  destruct (playwright.InnerText _ _ w1) as [w2 [text|err]] eqn:Htext; [done|].
  destruct (errors.Is err playwright.ErrTimeout) eqn:Htimeout; [|done].
  injection Hprobe as <-. by exists w1, err.
Qed.

(** X19 in the scripted browser whose error banner times out. *)
Lemma X19_login_succeeds_only_without_banner_witness :
  ∃ w1 err,
    JiraLoginHandler_submit Scripted.handler Watch.caller_ctx Scripted.form
      (inr playwright.ErrTimeout) = (w1, inl ())
    ∧ playwright.InnerText (page_Locator Scripted.jiraPage login_error_selector)
        (Some 1000%Z) w1 = (inr playwright.ErrTimeout, inr err)
    ∧ errors.Is err playwright.ErrTimeout = true.
Proof.
  refine (X19_login_succeeds_only_without_banner Scripted.handler Scripted.jiraPage
            Watch.caller_ctx Scripted.form (inr playwright.ErrTimeout)
            (inr playwright.ErrTimeout) _).
  reflexivity.
Defined.
